(** * sshr: the two-sided SSH authentication bridge ([ssh/sshr.go])

    A shallow embedding of the authentication bridge of the reverse proxy:
    the per-request translation [handleAuthMsg], the authorized-key matcher
    [checkPublicKeyRegistration], the re-signer [signAgain], the upstream
    relay [checkBridgeAuthWithNoBanner] and the driver
    [AuthenticateProxyConn].

    Go values are modelled as follows.
    - [[]byte] is [list byte]; a Go [string] is a Rocq [string] (both are
      sequences of octets).
    - A Go result pair [(T, error)] whose value is only meaningful when the
      error is nil is a [result T]; where the source returns a value next to
      the error ([bool, error], [*msg, error]) the pair is kept.
    - A pointer that may be nil is an [option].
    - The two transports are explicit state: each connection carries the
      packets still to be read, the packets written so far and a script
      saying which of the coming writes fail.
    - A run-time panic (nil dereference, index out of range) is the outcome
      [Panics]; a loop that runs out of the fuel it is given is [Diverges]. *)

From Stdlib Require Import List String Ascii NArith Bool Arith Lia.
From Stdlib Require Import Strings.Byte ZArith Zify.
From Equations Require Import Equations.
From Equations.Prop Require Import Logic.
Import ListNotations.

Set Implicit Arguments.
Local Open Scope string_scope.
Local Open Scope list_scope.

(** ** Go-level basics *)

Definition bytes := list byte.

(** Go [error] values, identified by their message. *)
Definition error := string.

Inductive result (A : Type) : Type :=
| Ok (a : A)
| Err (e : error).
Arguments Ok {A} a.
Arguments Err {A} e.

(** What running a Go function yields: its results, a run-time panic, or
    no result at all. *)
Inductive outcome (A : Type) : Type :=
| Returns (a : A)
| Panics (why : string)
| Diverges.
Arguments Returns {A} a.
Arguments Panics {A} why.
Arguments Diverges {A}.

Definition bytes_eq_dec : forall a b : bytes, {a = b} + {a <> b} :=
  list_eq_dec Byte.byte_eq_dec.

(** [bytes.Equal] *)
Definition bytes_Equal (a b : bytes) : bool :=
  if bytes_eq_dec a b then true else false.

(** ** Message numbers (RFC 4253, RFC 4252) *)

Definition msgServiceRequest  : byte := x05.
Definition msgServiceAccept   : byte := x06.
Definition msgUserAuthRequest : byte := x32.  (* 50 *)
Definition msgUserAuthFailure : byte := x33.  (* 51 *)
Definition msgUserAuthSuccess : byte := x34.  (* 52 *)
Definition msgUserAuthBanner  : byte := x35.  (* 53 *)
Definition msgUserAuthPubKeyOk : byte := x3c. (* 60 *)

Definition serviceUserAuth : string := "ssh-userauth".
Definition serviceSSH : string := "ssh-connection".

(** ** Wire encoding *)

Module Wire.

Definition byte_of_N (n : N) : byte :=
  match Byte.of_N (n mod 256) with
  | Some b => b
  | None => x00
  end.

(** Modelled from the spec: the primitive encodings of the transport
    library (its message codec is not part of [sshr.go]).  A length is a
    big-endian [uint32]; a longer length wraps around, as the Go
    conversion [uint32(len(s))] does. *)
Definition putUint32 (n : N) : bytes :=
  [ byte_of_N (n / 16777216); byte_of_N (n / 65536);
    byte_of_N (n / 256); byte_of_N n ].

Definition uint32 (b0 b1 b2 b3 : byte) : N :=
  (Byte.to_N b0 * 16777216 + Byte.to_N b1 * 65536
   + Byte.to_N b2 * 256 + Byte.to_N b3)%N.

Definition len (b : bytes) : N := N.of_nat (List.length b).

(** Modelled from the spec: [string(x)], a length-prefixed byte string
    ([marshalString] over a buffer of [stringLength] bytes). *)
Definition marshalString (s : bytes) : bytes :=
  putUint32 (len s mod 4294967296) ++ s.

Definition str (s : string) : bytes :=
  marshalString (list_byte_of_string s).

(** Modelled from the spec: [parseString], the inverse of the
    length-prefixed encoding; it fails on a short read. *)
Definition parseString (input : bytes) : option (bytes * bytes) :=
  match input with
  | b0 :: b1 :: b2 :: b3 :: rest =>
      let n := N.to_nat (uint32 b0 b1 b2 b3) in
      if Nat.ltb (List.length rest) n then None
      else Some (firstn n rest, skipn n rest)
  | _ => None
  end.

Definition marshalBool (b : bool) : bytes :=
  [ if b then x01 else x00 ].

End Wire.

(** ** Messages *)

Record userAuthRequestMsg := {
  User : string;
  Service : string;
  Method : string;
  Payload : bytes            (* ssh:"rest" *)
}.

Record publickeyAuthMsg := {
  pk_User : string;
  pk_Service : string;
  pk_Method : string;
  pk_HasSig : bool;
  pk_Algoname : string;
  pk_PubKey : bytes;
  pk_Sig : bytes             (* ssh:"rest" *)
}.

Record userAuthPubKeyOkMsg := {
  Algo : string;
  PubKey : bytes
}.

Record userAuthFailureMsg := {
  Methods : list string;
  PartialSuccess : bool
}.

Record Signature := {
  Format : string;
  Blob : bytes
}.

Definition parseError (tag : byte) : error := "ssh: parse error in message".
Definition errShortRead : error := "ssh: short read".
Definition unexpectedMessageError : error := "ssh: unexpected message type".

Module Codec.
Import Wire.

(** Modelled from the spec: [Marshal] of the transport library, field by
    field, preceded by the message number of the structure. *)
Definition Marshal_userAuthRequestMsg (m : userAuthRequestMsg) : bytes :=
  msgUserAuthRequest :: str (User m) ++ str (Service m) ++ str (Method m)
    ++ Payload m.

Definition Marshal_publickeyAuthMsg (m : publickeyAuthMsg) : bytes :=
  msgUserAuthRequest :: str (pk_User m) ++ str (pk_Service m)
    ++ str (pk_Method m) ++ marshalBool (pk_HasSig m)
    ++ str (pk_Algoname m) ++ marshalString (pk_PubKey m) ++ pk_Sig m.

Definition Marshal_userAuthPubKeyOkMsg (m : userAuthPubKeyOkMsg) : bytes :=
  msgUserAuthPubKeyOk :: str (Algo m) ++ marshalString (PubKey m).

(** A name-list is the comma-separated names, length-prefixed. *)
Definition Marshal_userAuthFailureMsg (m : userAuthFailureMsg) : bytes :=
  msgUserAuthFailure :: str (String.concat "," (Methods m))
    ++ marshalBool (PartialSuccess m).

Definition Marshal_serviceRequestMsg (service : string) : bytes :=
  msgServiceRequest :: str service.

Definition Marshal_Signature (s : Signature) : bytes :=
  str (Format s) ++ marshalString (Blob s).

(** Modelled from the spec: [Unmarshal] into a [userAuthRequestMsg]; an
    empty packet and a wrong message number are errors, the payload takes
    the rest of the packet. *)
Definition Unmarshal_userAuthRequestMsg (data : bytes)
  : result userAuthRequestMsg :=
  match data with
  | [] => Err (parseError msgUserAuthRequest)
  | t :: data =>
      if Byte.eqb t msgUserAuthRequest then
        match parseString data with
        | None => Err errShortRead
        | Some (user, data) =>
            match parseString data with
            | None => Err errShortRead
            | Some (service, data) =>
                match parseString data with
                | None => Err errShortRead
                | Some (method, data) =>
                    Ok {| User := string_of_list_byte user;
                          Service := string_of_list_byte service;
                          Method := string_of_list_byte method;
                          Payload := data |}
                end
            end
        end
      else Err unexpectedMessageError
  end.

(** Modelled from the spec: [Unmarshal] into a [serviceAcceptMsg]; bytes
    left after the last field are a parse error. *)
Definition Unmarshal_serviceAcceptMsg (data : bytes) : result string :=
  match data with
  | [] => Err (parseError msgServiceAccept)
  | t :: data =>
      if Byte.eqb t msgServiceAccept then
        match parseString data with
        | None => Err errShortRead
        | Some (service, []) => Ok (string_of_list_byte service)
        | Some (_, _ :: _) => Err (parseError msgServiceAccept)
        end
      else Err unexpectedMessageError
  end.

(** Modelled from the spec: [parseSignature], a length-prefixed
    signature body made of a format and a blob. *)
Definition parseSignatureBody (input : bytes) : option (Signature * bytes) :=
  match parseString input with
  | None => None
  | Some (format, input) =>
      match parseString input with
      | None => None
      | Some (blob, input) =>
          Some ({| Format := string_of_list_byte format; Blob := blob |},
                input)
      end
  end.

Definition parseSignature (input : bytes) : option (Signature * bytes) :=
  match parseString input with
  | None => None
  | Some (sigBytes, rest) =>
      match parseSignatureBody sigBytes with
      | Some (out, []) => Some (out, rest)
      | _ => None
      end
  end.

(** Modelled from the spec: the signed-for-auth canonical form,
    [string(session_id) ++ byte(USERAUTH_REQUEST) ++ string(user) ++
     string(service) ++ string("publickey") ++ byte(1) ++ string(algo) ++
     string(pubkey_blob)]; user and service are taken from the request. *)
Definition buildDataSignedForAuth (sessionID : bytes)
    (req : userAuthRequestMsg) (algo pubKey : bytes) : bytes :=
  marshalString sessionID ++ [msgUserAuthRequest] ++ str (User req)
    ++ str (Service req) ++ str "publickey" ++ marshalBool true
    ++ marshalString algo ++ marshalString pubKey.

End Codec.

(** The fields of a request fit their length prefixes. *)
Definition fits (m : userAuthRequestMsg) : Prop :=
  (Wire.len (list_byte_of_string (User m)) < 4294967296)%N
  /\ (Wire.len (list_byte_of_string (Service m)) < 4294967296)%N
  /\ (Wire.len (list_byte_of_string (Method m)) < 4294967296)%N.

(** ** The transport library's cryptographic interface

    [PublicKey] and [Signer] are Go interfaces; the parsers and the
    algorithm table belong to the transport library.  [sshr.go] only calls
    them, so they are the operations of a class.  [ParseAuthorizedKey]
    returns the key, its comment, its options and the unread rest; on
    success it has consumed at least the line holding the key. *)

Class SSHLibrary := {
  PublicKey : Type;
  Signer : Type;
  Rand : Type;
  PublicKey_Type : PublicKey -> string;
  PublicKey_Marshal : PublicKey -> bytes;
  PublicKey_Verify : PublicKey -> bytes -> Signature -> option error;
  Signer_PublicKey : Signer -> PublicKey;
  Signer_Sign : Signer -> Rand -> bytes -> result Signature;
  isAcceptableAlgo : string -> bool;
  ParsePublicKey : bytes -> result PublicKey;
  ParsePrivateKey : bytes -> result (option Signer);
  ParseAuthorizedKey :
    bytes -> result (PublicKey * string * list string * bytes);
  ParseAuthorizedKey_rest :
    forall input out comment options rest,
      ParseAuthorizedKey input = Ok (out, comment, options, rest) ->
      List.length rest < List.length input
}.

Section Matcher.
Context `{lib : SSHLibrary}.

(** [checkPublicKeyRegistration], sshr.go lines 128-144. *)
Equations? checkPublicKeyRegistration (authKeys : bytes)
    (publicKey : PublicKey) : bool * option error
    by wf (List.length authKeys) lt :=
  checkPublicKeyRegistration [] publicKey := (false, None);
  checkPublicKeyRegistration (b :: bs) publicKey
    with inspect (ParseAuthorizedKey (b :: bs)) := {
    | exist _ (Err err) _ := (false, Some err);
    | exist _ (Ok (authorizedPublicKey, _, _, rest)) Hparse :=
        if bytes_Equal (PublicKey_Marshal authorizedPublicKey)
                       (PublicKey_Marshal publicKey)
        then (true, None)
        else checkPublicKeyRegistration rest publicKey }.
Proof.
  apply ParseAuthorizedKey_rest in Hparse. exact Hparse.
Qed.

(** From the specification of the matcher: the entries of an
    authorized-keys file as they are parsed in sequence, each parse going
    on from the rest the previous one left, until the bytes are exhausted
    ([None]) or an entry fails to parse (the parse error). *)
Equations? parsedEntries (authKeys : bytes)
    : list PublicKey * option error
    by wf (List.length authKeys) lt :=
  parsedEntries [] := ([], None);
  parsedEntries (b :: bs)
    with inspect (ParseAuthorizedKey (b :: bs)) := {
    | exist _ (Err err) _ := ([], Some err);
    | exist _ (Ok (entry, _, _, rest)) Hparse :=
        (entry :: fst (parsedEntries rest), snd (parsedEntries rest)) }.
Proof.
  all: apply ParseAuthorizedKey_rest in Hparse; exact Hparse.
Qed.

(** The candidate's marshaled form is byte-equal to the entry's. *)
Definition sameKey (publicKey entry : PublicKey) : bool :=
  bytes_Equal (PublicKey_Marshal entry) (PublicKey_Marshal publicKey).

End Matcher.

(** ** The host: files and paths

    [path.Join] and the file system are the host's; a file has permission
    bits and contents. *)

Record File := {
  mode : N;
  contents : bytes
}.

Class HostOS := {
  path_Join : list string -> string;
  fs : string -> option File
}.

Definition userFile := string.
Definition userAuthorizedKeysFile : userFile := "authorized_keys".
Definition userPrivateKeyFile : userFile := "id_rsa".

Section Files.
Context `{os : HostOS}.

(** [userSpecFile], sshr.go lines 204-206. *)
Definition userSpecFile (username file : string) : string :=
  path_Join ["/home"; username; "/.ssh"; file].

(** [ioutil.ReadFile]: the whole contents, or the error of opening. *)
Definition ioutil_ReadFile (filename : string) : result bytes :=
  match fs filename with
  | Some f => Ok (contents f)
  | None => Err "open: no such file or directory"
  end.

(** [FileMode.Perm]: the permission bits of a mode. *)
Definition Perm (m : N) : N := N.land m 511.  (* 0o777 *)

(** [userFile.checkPermission], sshr.go lines 184-202.  It opens and
    stats the file and never reads its contents. *)
Definition checkPermission (file : userFile) (user : string)
  : option error :=
  let filename := userSpecFile user file in
  match fs filename with
  | None => Some "open: no such file or directory"
  | Some fi =>
      if negb (N.eqb (N.land (Perm (mode fi)) 63) 0)  (* 0077 *)
      then Some (String.append filename "'s perm is too open")
      else None
  end.

(** [userFile.read], sshr.go lines 224-226. *)
Definition userFile_read (file : userFile) (username : string)
  : result bytes :=
  ioutil_ReadFile (userSpecFile username file).

(** [fetchAuthorizedKeysFromHomeDir], sshr.go lines 146-152. *)
Definition fetchAuthorizedKeysFromHomeDir (username : string)
  : result bytes :=
  match userFile_read userAuthorizedKeysFile username with
  | Err err => Err err
  | Ok authKeys => Ok authKeys
  end.

(** [fetchPrivateKeyFromHomeDir], sshr.go lines 176-182. *)
Definition fetchPrivateKeyFromHomeDir (username : string) : result bytes :=
  match userFile_read userPrivateKeyFile username with
  | Err err => Err err
  | Ok privateBytes => Ok privateBytes
  end.

End Files.

(** ** Configuration and connections *)

Record ProxyConfig := {
  DestinationPort : string;
  FindUpstreamHook : option (string -> result string);
  FetchAuthorizedKeysHook : option (string -> result bytes);
  FetchPrivateKeyHook : option (string -> result bytes);
  UseMasterKey : bool;
  MasterKeyPath : string
}.

Definition set_FetchAuthorizedKeysHook (c : ProxyConfig)
    (h : option (string -> result bytes)) : ProxyConfig :=
  {| DestinationPort := DestinationPort c;
     FindUpstreamHook := FindUpstreamHook c;
     FetchAuthorizedKeysHook := h;
     FetchPrivateKeyHook := FetchPrivateKeyHook c;
     UseMasterKey := UseMasterKey c;
     MasterKeyPath := MasterKeyPath c |}.

Section Bridge.
Context `{lib : SSHLibrary} `{os : HostOS}.
Import Codec.

(** A [connection] with its transport: the session identifier of its key
    exchange, the random source of its configuration, the packets the
    peer has sent and that [readPacket] will deliver, the packets
    written so far, and which of the coming writes fail ([true] is a
    failing write; past the end of the script every write succeeds). *)
Record connection := {
  sessionID : bytes;
  configRand : Rand;
  incoming : list bytes;
  outgoing : list bytes;
  wfail : list bool
}.

Record ProxyConn := {
  ProxyUser : string;          (* the field [User] of the source *)
  DestinationHost : string;
  Upstream : connection;
  Downstream : connection
}.

Definition getSessionID (c : connection) : bytes := sessionID c.

Definition readPacket (c : connection) : result bytes * connection :=
  match incoming c with
  | [] => (Err "EOF", c)
  | packet :: rest =>
      (Ok packet,
       {| sessionID := sessionID c; configRand := configRand c;
          incoming := rest; outgoing := outgoing c; wfail := wfail c |})
  end.

Definition writePacket (c : connection) (packet : bytes)
  : option error * connection :=
  match wfail c with
  | true :: script =>
      (Some "write: broken pipe",
       {| sessionID := sessionID c; configRand := configRand c;
          incoming := incoming c; outgoing := outgoing c;
          wfail := script |})
  | script =>
      (None,
       {| sessionID := sessionID c; configRand := configRand c;
          incoming := incoming c; outgoing := outgoing c ++ [packet];
          wfail := tl script |})
  end.

(** Whether the next write on the connection fails. *)
Definition writeFails (c : connection) : bool :=
  match wfail c with
  | true :: _ => true
  | _ => false
  end.

Definition set_Upstream (p : ProxyConn) (c : connection) : ProxyConn :=
  {| ProxyUser := ProxyUser p; DestinationHost := DestinationHost p;
     Upstream := c; Downstream := Downstream p |}.

Definition set_Downstream (p : ProxyConn) (c : connection) : ProxyConn :=
  {| ProxyUser := ProxyUser p; DestinationHost := DestinationHost p;
     Upstream := Upstream p; Downstream := c |}.

(** *** The bridge's monad: state, panics and divergence *)

Record machine := {
  conn : ProxyConn;
  conf : ProxyConfig
}.

Definition M (A : Type) : Type := machine -> outcome A * machine.

Definition ret {A} (a : A) : M A := fun s => (Returns a, s).

Definition bind {A B} (c : M A) (k : A -> M B) : M B :=
  fun s =>
    match c s with
    | (Returns a, s') => k a s'
    | (Panics why, s') => (Panics why, s')
    | (Diverges, s') => (Diverges, s')
    end.

Definition panic {A} (why : string) : M A := fun s => (Panics why, s).
Definition diverge {A} : M A := fun s => (Diverges, s).

Notation "x <- c ;; k" := (bind c (fun x => k))
  (at level 61, c at next level, right associativity).

Definition getConn : M ProxyConn := fun s => (Returns (conn s), s).
Definition getConf : M ProxyConfig := fun s => (Returns (conf s), s).
Definition putConf (c : ProxyConfig) : M unit :=
  fun s => (Returns tt, {| conn := conn s; conf := c |}).

(** [p.Downstream.transport.writePacket] and its three siblings. *)
Definition Downstream_writePacket (packet : bytes) : M (option error) :=
  fun s =>
    let (err, c) := writePacket (Downstream (conn s)) packet in
    (Returns err, {| conn := set_Downstream (conn s) c; conf := conf s |}).

Definition Upstream_writePacket (packet : bytes) : M (option error) :=
  fun s =>
    let (err, c) := writePacket (Upstream (conn s)) packet in
    (Returns err, {| conn := set_Upstream (conn s) c; conf := conf s |}).

Definition Downstream_readPacket : M (result bytes) :=
  fun s =>
    let (r, c) := readPacket (Downstream (conn s)) in
    (Returns r, {| conn := set_Downstream (conn s) c; conf := conf s |}).

Definition Upstream_readPacket : M (result bytes) :=
  fun s =>
    let (r, c) := readPacket (Upstream (conn s)) in
    (Returns r, {| conn := set_Upstream (conn s) c; conf := conf s |}).

(** [packet[0]]: indexing an empty slice panics. *)
Definition index0 (packet : bytes) : M byte :=
  match packet with
  | [] => panic "index out of range [0] with length 0"
  | b :: _ => ret b
  end.

(** [fetchPrivateKey], sshr.go lines 154-174. *)
Definition fetchPrivateKey (proxyConf : ProxyConfig) (username : string)
  : result bytes :=
  if UseMasterKey proxyConf then
    match ioutil_ReadFile (MasterKeyPath proxyConf) with
    | Err err => Err err
    | Ok privateBytes => Ok privateBytes
    end
  else
    match FetchPrivateKeyHook proxyConf with
    | None =>
        match fetchPrivateKeyFromHomeDir username with
        | Err err => Err err
        | Ok privateBytes => Ok privateBytes
        end
    | Some hook =>
        match hook username with
        | Err err => Err err
        | Ok privateBytes => Ok privateBytes
        end
    end.

(** [sendOKMsg], sshr.go lines 208-215. *)
Definition sendOKMsg (key : PublicKey) : M (option error) :=
  let okMsg := {| Algo := PublicKey_Type key;
                  PubKey := PublicKey_Marshal key |} in
  Downstream_writePacket (Marshal_userAuthPubKeyOkMsg okMsg).

(** [sendFailureMsg], sshr.go lines 217-222. *)
Definition sendFailureMsg (method : string) : M (option error) :=
  let failureMsg := {| Methods := [] ++ [method];
                       PartialSuccess := false |} in
  Downstream_writePacket (Marshal_userAuthFailureMsg failureMsg).

(** [noneAuthMsg], sshr.go lines 432-438. *)
Definition noneAuthMsg (user : string) : userAuthRequestMsg :=
  {| User := user; Service := serviceSSH; Method := "none";
     Payload := [] |}.

(** [parsePublicKeyMsg], sshr.go lines 378-417.  The signature pointer
    stays nil for a query. *)
Definition parsePublicKeyMsg (userAuthReq : userAuthRequestMsg)
  : result (PublicKey * bool * option Signature) :=
  if negb (String.eqb (Method userAuthReq) "publickey") then
    Err "not a publickey auth msg"
  else
    match Payload userAuthReq with
    | [] => Err (parseError msgUserAuthRequest)
    | b0 :: payload =>
        let isQuery := Byte.eqb b0 x00 in
        match Wire.parseString payload with
        | None => Err (parseError msgUserAuthRequest)
        | Some (algoBytes, payload) =>
            let algo := string_of_list_byte algoBytes in
            if negb (isAcceptableAlgo algo) then
              Err "ssh: algorithm not accepted"
            else
              match Wire.parseString payload with
              | None => Err (parseError msgUserAuthRequest)
              | Some (pubKeyData, payload) =>
                  match ParsePublicKey pubKeyData with
                  | Err err => Err err
                  | Ok publicKey =>
                      if negb isQuery then
                        match parseSignature payload with
                        | Some (sig, []) => Ok (publicKey, isQuery, Some sig)
                        | _ => Err (parseError msgUserAuthRequest)
                        end
                      else Ok (publicKey, isQuery, None)
                  end
              end
        end
    end.

(** [VerifySignature], sshr.go lines 228-239. *)
Definition VerifySignature (p : ProxyConn) (msg : userAuthRequestMsg)
    (publicKey : PublicKey) (sig : option Signature)
  : outcome (bool * option error) :=
  match sig with
  | None => Panics "nil pointer dereference"
  | Some sig =>
      if negb (isAcceptableAlgo (Format sig)) then
        Returns (false, Some "ssh: algorithm not accepted")
      else
        let signedData :=
          buildDataSignedForAuth (getSessionID (Downstream p)) msg
            (list_byte_of_string (PublicKey_Type publicKey))
            (PublicKey_Marshal publicKey) in
        match PublicKey_Verify publicKey signedData sig with
        | Some _ => Returns (false, None)
        | None => Returns (true, None)
        end
  end.

(** [signAgain], sshr.go lines 241-277.  The source decodes the new
    request into the structure [msg] points to and returns that pointer;
    the result is the decoded request. *)
Definition signAgain (p : ProxyConn) (user : string)
    (msg : userAuthRequestMsg) (signer : Signer)
  : result userAuthRequestMsg :=
  let rand := configRand (Upstream p) in
  let sessionID := getSessionID (Upstream p) in
  let upStreamPublicKey := Signer_PublicKey signer in
  let upStreamPublicKeyData := PublicKey_Marshal upStreamPublicKey in
  match Signer_Sign signer rand
          (buildDataSignedForAuth sessionID
             {| User := user; Service := serviceSSH;
                Method := "publickey"; Payload := [] |}
             (list_byte_of_string (PublicKey_Type upStreamPublicKey))
             upStreamPublicKeyData) with
  | Err err => Err err
  | Ok sign =>
      let s := Marshal_Signature sign in
      let sig := Wire.marshalString s in
      let publicKeyMsg :=
        {| pk_User := user; pk_Service := serviceSSH;
           pk_Method := "publickey"; pk_HasSig := true;
           pk_Algoname := PublicKey_Type upStreamPublicKey;
           pk_PubKey := upStreamPublicKeyData; pk_Sig := sig |} in
      match Unmarshal_userAuthRequestMsg
              (Marshal_publickeyAuthMsg publicKeyMsg) with
      | Err err => Err err
      | Ok msg' => Ok msg'
      end
  end.

(** Modelled from the spec: the transport library's client auth methods;
    [PublicKeys] wraps the signers it is given in a callback that
    returns them. *)
Inductive AuthMethod : Type :=
| passwordCallback (f : unit -> result string)
| publicKeyCallback (f : unit -> result (list Signer)).

Definition PublicKeys (signers : list Signer) : AuthMethod :=
  publicKeyCallback (fun _ => Ok signers).

Definition liftOutcome {A} (o : outcome A) : M A := fun s => (o, s).

Definition handled : Type := option userAuthRequestMsg * option error.

(** The statements after the [switch] of [handleAuthMsg], sshr.go lines
    124-125, reached by every [break]; [msg] is the pointer as the
    switch left it. *)
Definition handleAuthMsg_failure (msg : option userAuthRequestMsg)
  : M handled :=
  match msg with
  | None => panic "nil pointer dereference"
  | Some m =>
      err <- sendFailureMsg (Method m) ;;
      ret (None, err)
  end.

(** The [for _, signer := range signers] of sshr.go lines 106-112.  Its
    body leaves the loop in the first iteration: it returns the re-signed
    request, or it breaks after [msg, err = p.signAgain(...)] has
    overwritten [msg] with the nil pointer [signAgain] returns next to
    its error. *)
Definition handleAuthMsg_signers (username : string)
    (msg : userAuthRequestMsg) (signers : list Signer) : M handled :=
  match signers with
  | [] => handleAuthMsg_failure (Some msg)
  | signer :: _ =>
      p <- getConn ;;
      match signAgain p username msg signer with
      | Err _ => handleAuthMsg_failure None
      | Ok msg' => ret (Some msg', None)
      end
  end.

(** sshr.go lines 54-56: a nil [FetchAuthorizedKeysHook] is replaced, in
    the configuration itself, by the home-directory reader. *)
Definition defaultFetchAuthorizedKeysHook : M unit :=
  proxyConf <- getConf ;;
  match FetchAuthorizedKeysHook proxyConf with
  | None =>
      putConf (set_FetchAuthorizedKeysHook proxyConf
                 (Some fetchAuthorizedKeysFromHomeDir))
  | Some _ => ret tt
  end.

(** The hook [handleAuthMsg] calls for a user's authorized keys. *)
Definition authorizedKeysHook (proxyConf : ProxyConfig)
  : string -> result bytes :=
  match FetchAuthorizedKeysHook proxyConf with
  | Some hook => hook
  | None => fetchAuthorizedKeysFromHomeDir
  end.

(** [handleAuthMsg], sshr.go lines 50-126. *)
Definition handleAuthMsg (msg : userAuthRequestMsg) : M handled :=
  let username := User msg in
  if String.eqb (Method msg) "publickey" then
    _ <- defaultFetchAuthorizedKeysHook ;;
    match parsePublicKeyMsg msg with
    | Err _ => handleAuthMsg_failure (Some msg)
    | Ok (downStreamPublicKey, isQuery, sig) =>
        if isQuery then
          err <- sendOKMsg downStreamPublicKey ;;
          ret (None, err)
        else
          proxyConf <- getConf ;;
          match FetchAuthorizedKeysHook proxyConf with
          | None => panic "call of nil func"
          | Some hook =>
              match hook username with
              | Err _ => ret (Some (noneAuthMsg username), None)
              | Ok authKeys =>
                  match checkPublicKeyRegistration authKeys
                          downStreamPublicKey with
                  | (true, None) =>
                      p <- getConn ;;
                      v <- liftOutcome
                             (VerifySignature p msg downStreamPublicKey
                                sig) ;;
                      match v with
                      | (true, None) =>
                          match fetchPrivateKey proxyConf (ProxyUser p) with
                          | Err _ => handleAuthMsg_failure (Some msg)
                          | Ok privateBytes =>
                              match ParsePrivateKey privateBytes with
                              | Ok (Some signer) =>
                                  match PublicKeys [signer] with
                                  | publicKeyCallback f =>
                                      match f tt with
                                      | Ok ((_ :: _) as signers) =>
                                          handleAuthMsg_signers username
                                            msg signers
                                      | _ =>
                                          handleAuthMsg_failure (Some msg)
                                      end
                                  | _ => handleAuthMsg_failure (Some msg)
                                  end
                              | _ => handleAuthMsg_failure (Some msg)
                              end
                          end
                      | _ => handleAuthMsg_failure (Some msg)
                      end
                  | _ => ret (Some (noneAuthMsg username), None)
                  end
              end
          end
    end
  else if String.eqb (Method msg) "password" then
    (* the packet flows upstream as it is *)
    ret (Some msg, None)
  else
    ret (Some msg, None).

(** The relay loop of [checkBridgeAuthWithNoBanner], sshr.go lines
    305-327. *)
Fixpoint relayUpstream (fuel : nat) : M (bool * option error) :=
  match fuel with
  | 0 => diverge
  | S fuel =>
      r <- Upstream_readPacket ;;
      match r with
      | Err err => ret (false, Some err)
      | Ok packet =>
          msgType <- index0 packet ;;
          werr <- Downstream_writePacket packet ;;
          match werr with
          | Some err => ret (false, Some err)
          | None =>
              if Byte.eqb msgType msgUserAuthSuccess then ret (true, None)
              else if Byte.eqb msgType msgUserAuthBanner then
                relayUpstream fuel
              else ret (false, None)
          end
      end
  end.

(** Every iteration of the relay reads one upstream packet, so one more
    than the number of pending packets bounds the iterations. *)
Definition relayFuel (s : machine) : nat :=
  S (List.length (incoming (Upstream (conn s)))).

(** [checkBridgeAuthWithNoBanner], sshr.go lines 299-328. *)
Definition checkBridgeAuthWithNoBanner (packet : bytes)
  : M (bool * option error) :=
  err <- Upstream_writePacket packet ;;
  match err with
  | Some err => ret (false, Some err)
  | None => fun s => relayUpstream (relayFuel s) s
  end.

(** [connection.sendAuthReq] on the upstream, sshr.go lines 473-484. *)
Definition sendAuthReq : M (option error) :=
  err <- Upstream_writePacket (Marshal_serviceRequestMsg serviceUserAuth) ;;
  match err with
  | Some err => ret (Some err)
  | None =>
      r <- Upstream_readPacket ;;
      match r with
      | Err err => ret (Some err)
      | Ok packet =>
          match Unmarshal_serviceAcceptMsg packet with
          | Err err => ret (Some err)
          | Ok _ => ret None
          end
      end
  end.

Definition errNotAuthRequest : error :=
  "auth request msg can be acceptable".

(** The next-request phase of [AuthenticateProxyConn], sshr.go lines
    353-372: read one downstream packet, insist on its message number,
    decode it. *)
Definition nextRequest : M (result userAuthRequestMsg) :=
  r <- Downstream_readPacket ;;
  match r with
  | Err err => ret (Err err)
  | Ok packet =>
      b <- index0 packet ;;
      if Byte.eqb b msgUserAuthRequest then
        ret (Unmarshal_userAuthRequestMsg packet)
      else ret (Err errNotAuthRequest)
  end.

(** The bridge step of one iteration, sshr.go lines 338-351: translate
    the request (an error of [handleAuthMsg] is only printed) and, when a
    request comes back, send it upstream and relay the answer. *)
Definition bridgeStep (userAuthMsg : userAuthRequestMsg)
  : M (bool * option error) :=
  h <- handleAuthMsg userAuthMsg ;;
  match fst h with
  | Some userAuthMsg' =>
      checkBridgeAuthWithNoBanner (Marshal_userAuthRequestMsg userAuthMsg')
  | None => ret (false, None)
  end.

(** The loop of [AuthenticateProxyConn], sshr.go lines 337-375. *)
Fixpoint authLoop (fuel : nat) (userAuthMsg : userAuthRequestMsg)
  : M (option error) :=
  match fuel with
  | 0 => diverge
  | S fuel =>
      b <- bridgeStep userAuthMsg ;;
      match b with
      | (_, Some err) => ret (Some err)
      | (true, None) => ret None
      | (false, None) =>
          r <- nextRequest ;;
          match r with
          | Err err => ret (Some err)
          | Ok userAuthReq => authLoop fuel userAuthReq
          end
      end
  end.

(** Every iteration that does not return reads one downstream packet. *)
Definition authFuel (s : machine) : nat :=
  S (List.length (incoming (Downstream (conn s)))).

(** [AuthenticateProxyConn], sshr.go lines 330-376. *)
Definition AuthenticateProxyConn (initUserAuthMsg : userAuthRequestMsg)
  : M (option error) :=
  err <- sendAuthReq ;;
  match err with
  | Some err => ret (Some err)
  | None => fun s => authLoop (authFuel s) initUserAuthMsg s
  end.

(** The authorization gate of a [publickey] attempt [msg] on the machine
    [s]: the request parses as a signed attempt, the user's authorized
    keys are fetched, [checkPublicKeyRegistration] answers [true] for the
    candidate key, and [VerifySignature] answers [true] for the
    signature. *)
Definition Gate (s : machine) (msg : userAuthRequestMsg) : Prop :=
  exists publicKey sig authKeys,
    parsePublicKeyMsg msg = Ok (publicKey, false, Some sig)
    /\ authorizedKeysHook (conf s) (User msg) = Ok authKeys
    /\ checkPublicKeyRegistration authKeys publicKey = (true, None)
    /\ VerifySignature (conn s) msg publicKey (Some sig)
       = Returns (true, None).

(** What the translation of a request depends on besides the request:
    the two session identifiers, the upstream random source and the
    authorized-keys hook. *)
Definition binds (s s' : machine) : Prop :=
  sessionID (Downstream (conn s')) = sessionID (Downstream (conn s))
  /\ authorizedKeysHook (conf s') = authorizedKeysHook (conf s)
  /\ sessionID (Upstream (conn s')) = sessionID (Upstream (conn s))
  /\ configRand (Upstream (conn s')) = configRand (Upstream (conn s)).

(** A step that, moreover, leaves the pending downstream packets alone. *)
Definition keeps (s s' : machine) : Prop :=
  incoming (Downstream (conn s')) = incoming (Downstream (conn s))
  /\ binds s s'.

(** The request [m] that [handleAuthMsg] hands to the bridge step for the
    downstream request [msg]: [msg] itself when its method is not
    [publickey]; otherwise the [none] request, or a request re-signed by
    [signAgain] once the gate of [msg] is passed. *)
Definition Emits (s : machine) (msg m : userAuthRequestMsg) : Prop :=
  (Method msg <> "publickey" /\ m = msg)
  \/ (Method msg = "publickey"
      /\ (m = noneAuthMsg (User msg)
          \/ (Gate s msg
              /\ exists signer,
                   signAgain (conn s) (User msg) msg signer = Ok m))).

(** The requests the loop handles: the initial one and those decoded from
    the downstream packets it consumed. *)
Definition Processed (init : userAuthRequestMsg) (consumed : list bytes)
    (req : userAuthRequestMsg) : Prop :=
  req = init
  \/ exists packet,
       In packet consumed /\ Unmarshal_userAuthRequestMsg packet = Ok req.

(** A packet the loop writes upstream: the marshaled request that
    [handleAuthMsg] hands over for one of the handled requests. *)
Definition Allowed (s : machine) (init : userAuthRequestMsg)
    (consumed : list bytes) (packet : bytes) : Prop :=
  exists req m,
    Processed init consumed req
    /\ Emits s req m
    /\ packet = Marshal_userAuthRequestMsg m.

(** *** The forwarder and the first request *)

(** [piping], sshr.go lines 419-430: copy packets from [src] to [dst]
    until a read or a write fails; the error is the only way out.  The
    call touches the input side of [src] and the output side of [dst]. *)
Fixpoint piping_loop (fuel : nat) (dst src : connection)
  : outcome error * (connection * connection) :=
  match fuel with
  | 0 => (Diverges, (dst, src))
  | S fuel =>
      match readPacket src with
      | (Err err, src') => (Returns err, (dst, src'))
      | (Ok p, src') =>
          match writePacket dst p with
          | (Some err, dst') => (Returns err, (dst', src'))
          | (None, dst') => piping_loop fuel dst' src'
          end
      end
  end.

(** Every iteration reads one packet of [src]. *)
Definition piping (dst src : connection)
  : outcome error * (connection * connection) :=
  piping_loop (S (List.length (incoming src))) dst src.

(** A [connection] with the [user] field of its [sshConn], which
    [GetAuthRequestMsg] writes. *)
Record userConnection := {
  transport : connection;
  user : string
}.

Definition errUnknownService (service : string) : error :=
  String.append
    "ssh: client attempted to negotiate for unknown service: " service.

(** [connection.GetAuthRequestMsg], sshr.go lines 486-501. *)
Definition GetAuthRequestMsg (c : userConnection)
  : result userAuthRequestMsg * userConnection :=
  match readPacket (transport c) with
  | (Err err, t) => (Err err, {| transport := t; user := user c |})
  | (Ok packet, t) =>
      match Unmarshal_userAuthRequestMsg packet with
      | Err err => (Err err, {| transport := t; user := user c |})
      | Ok userAuthReq =>
          if negb (String.eqb (Service userAuthReq) serviceSSH) then
            (Err (errUnknownService (Service userAuthReq)),
             {| transport := t; user := user c |})
          else
            (Ok userAuthReq, {| transport := t; user := User userAuthReq |})
      end
  end.

(** The replies [handleAuthMsg] itself writes downstream for a request:
    the [USERAUTH_PK_OK] of a key, or the [USERAUTH_FAILURE] listing the
    request's method. *)
Definition ProxyReply (msg : userAuthRequestMsg) (packet : bytes) : Prop :=
  (exists key : PublicKey,
      packet = Marshal_userAuthPubKeyOkMsg
                 {| Algo := PublicKey_Type key;
                    PubKey := PublicKey_Marshal key |})
  \/ packet = Marshal_userAuthFailureMsg
                {| Methods := [Method msg]; PartialSuccess := false |}.

End Bridge.

(** ** A small instance of the interfaces

    A key is its blob, a signature by a key is the blob followed by the
    signed data, an authorized-keys file holds one blob per line, and a
    private-key file is a flag byte (zero for a signer whose [Sign] fails)
    followed by the blob.  It is used to run the bridge on concrete
    connections. *)

Module Example.

Definition algo : string := "ssh-toy".

Record signer := {
  signer_key : bytes;
  signer_fails : bool
}.

Definition verify (k : bytes) (data : bytes) (sig : Signature)
  : option error :=
  if bytes_Equal (Blob sig) (k ++ data) then None
  else Some "ssh: signature did not verify".

Definition sign (s : signer) (_ : unit) (data : bytes) : result Signature :=
  if signer_fails s then Err "ssh: signing failed"
  else Ok {| Format := algo; Blob := signer_key s ++ data |}.

Definition parsePublicKey (b : bytes) : result bytes :=
  match b with
  | [] => Err "ssh: short read"
  | _ :: _ => Ok b
  end.

Definition parsePrivateKey (b : bytes) : result (option signer) :=
  match b with
  | [] => Err "ssh: no key found"
  | flag :: k =>
      Ok (Some {| signer_key := k; signer_fails := Byte.eqb flag x00 |})
  end.

(** The first line of the input and what follows its line feed. *)
Fixpoint splitLine (input : bytes) : bytes * bytes :=
  match input with
  | [] => ([], [])
  | b :: rest =>
      if Byte.eqb b x0a then ([], rest)
      else let (line, after) := splitLine rest in (b :: line, after)
  end.

Definition parseAuthorizedKey (input : bytes)
  : result (bytes * string * list string * bytes) :=
  match input with
  | [] => Err "ssh: no key found"
  | _ :: _ =>
      match splitLine input with
      | ([], _) => Err "ssh: no key found"
      | (k, rest) => Ok (k, "", [], rest)
      end
  end.

Lemma splitLine_length input :
  List.length (snd (splitLine input)) <= List.length input.
Proof.
  induction input as [|b rest IH]; simpl; [lia|].
  destruct (Byte.eqb b x0a); simpl; [lia|].
  destruct (splitLine rest) as [line after]; simpl in *; lia.
Defined.

Lemma parseAuthorizedKey_rest input out comment options rest :
  parseAuthorizedKey input = Ok (out, comment, options, rest) ->
  List.length rest < List.length input.
Proof.
  destruct input as [|b input]; simpl; [discriminate|].
  pose proof (splitLine_length input) as H.
  destruct (Byte.eqb b x0a); [discriminate|].
  destruct (splitLine input) as [line after]; simpl in *.
  intros E; inversion E; subst. lia.
Defined.

#[export] Instance library : SSHLibrary := {|
  PublicKey := bytes;
  Signer := signer;
  Rand := unit;
  PublicKey_Type := fun _ => algo;
  PublicKey_Marshal := fun k => k;
  PublicKey_Verify := verify;
  Signer_PublicKey := signer_key;
  Signer_Sign := sign;
  isAcceptableAlgo := String.eqb algo;
  ParsePublicKey := parsePublicKey;
  ParsePrivateKey := parsePrivateKey;
  ParseAuthorizedKey := parseAuthorizedKey;
  ParseAuthorizedKey_rest := parseAuthorizedKey_rest
|}.

(** Joining path elements with single slashes. *)
Definition dropSlash (s : string) : string :=
  match s with
  | String "/" rest => rest
  | _ => s
  end.

Definition join (elems : list string) : string :=
  match elems with
  | [] => ""
  | first :: others => String.concat "/" (first :: map dropSlash others)
  end.

Definition aliceKey : bytes := [x41; x4b].          (* "AK" *)
Definition proxyKey : bytes := [x50; x4b].          (* "PK" *)

(** Alice's files are readable by group and others (mode 0644). *)
Definition files (path : string) : option File :=
  if String.eqb path "/home/alice/.ssh/authorized_keys" then
    Some {| mode := 420; contents := aliceKey ++ [x0a] |}
  else if String.eqb path "/home/alice/.ssh/id_rsa" then
    Some {| mode := 420; contents := x01 :: proxyKey |}
  else if String.eqb path "/home/bob/.ssh/authorized_keys" then
    Some {| mode := 384; contents := aliceKey ++ [x0a] |}
  else if String.eqb path "/home/bob/.ssh/id_rsa" then
    Some {| mode := 384; contents := x00 :: proxyKey |}
  else None.

#[export] Instance host : HostOS := {|
  path_Join := join;
  fs := files
|}.

Definition proxyConf : ProxyConfig := {|
  DestinationPort := "22";
  FindUpstreamHook := None;
  FetchAuthorizedKeysHook := None;
  FetchPrivateKeyHook := None;
  UseMasterKey := false;
  MasterKeyPath := ""
|}.

Definition link (sid : bytes) (pending : list bytes) : connection := {|
  sessionID := sid;
  configRand := tt;
  incoming := pending;
  outgoing := [];
  wfail := []
|}.

Definition downSID : bytes := [x64].
Definition upSID : bytes := [x75].

Definition proxy (user : string) (fromUp fromDown : list bytes)
  : machine := {|
  conn := {| ProxyUser := user; DestinationHost := "backend";
             Upstream := link upSID fromUp;
             Downstream := link downSID fromDown |};
  conf := proxyConf
|}.

(** A [publickey] request of [user] for the key [k]: a query, or an
    attempt signed by [k] over the session [sid]. *)
Definition query (user : string) (k : bytes) : userAuthRequestMsg := {|
  User := user; Service := serviceSSH; Method := "publickey";
  Payload := x00 :: Wire.str algo ++ Wire.marshalString k
|}.

Definition signedBy (sid : bytes) (user : string) (k : bytes)
  : userAuthRequestMsg :=
  let req := {| User := user; Service := serviceSSH;
                Method := "publickey"; Payload := [] |} in
  let data := Codec.buildDataSignedForAuth sid req
                (list_byte_of_string algo) k in
  let sig := {| Format := algo; Blob := k ++ data |} in
  {| User := user; Service := serviceSSH; Method := "publickey";
     Payload := x01 :: Wire.str algo ++ Wire.marshalString k
                  ++ Wire.marshalString (Codec.Marshal_Signature sig) |}.

Definition password (user pw : string) : userAuthRequestMsg := {|
  User := user; Service := serviceSSH; Method := "password";
  Payload := x00 :: Wire.str pw
|}.

(** The upstream's answer to the service request. *)
Definition serviceAccept : bytes :=
  msgServiceAccept :: Wire.str serviceUserAuth.

(** Alice's signed attempt on a proxy whose files for her are open to
    group and others; Bob's signed attempt on a proxy whose private key
    for him cannot sign. *)
Definition aliceAttempt : userAuthRequestMsg :=
  signedBy downSID "alice" aliceKey.

Definition bobAttempt : userAuthRequestMsg :=
  signedBy downSID "bob" aliceKey.

(** An attempt with a key that is in nobody's authorized keys. *)
Definition strangerAttempt : userAuthRequestMsg :=
  signedBy downSID "alice" proxyKey.

Definition aliceAttempt_packet : bytes :=
  Codec.Marshal_userAuthRequestMsg aliceAttempt.

(** A proxy whose next upstream write fails. *)
Definition brokenProxy (user : string) (fromUp fromDown : list bytes)
  : machine := {|
  conn := {| ProxyUser := user; DestinationHost := "backend";
             Upstream := {| sessionID := upSID; configRand := tt;
                            incoming := fromUp; outgoing := [];
                            wfail := [true] |};
             Downstream := link downSID fromDown |};
  conf := proxyConf
|}.

Definition proxySigner : signer :=
  {| signer_key := proxyKey; signer_fails := false |}.

(** The signature [proxySigner] makes for [user] over the session [sid]. *)
Definition proxySignature (sid : bytes) (user : string) : Signature :=
  {| Format := algo;
     Blob := proxyKey
             ++ Codec.buildDataSignedForAuth sid
                  {| User := user; Service := serviceSSH;
                     Method := "publickey"; Payload := [] |}
                  (list_byte_of_string algo) proxyKey |}.

End Example.


(** * Properties *)

Lemma bytes_Equal_true a b : bytes_Equal a b = true <-> a = b.
Proof.
  unfold bytes_Equal. destruct (bytes_eq_dec a b); split; congruence.
Qed.

Lemma bytes_Equal_refl a : bytes_Equal a a = true.
Proof. apply bytes_Equal_true. reflexivity. Qed.

Section MatcherProperties.
Context `{lib : SSHLibrary}.

(** The loop of [checkPublicKeyRegistration], one iteration unfolded. *)
Lemma checkPublicKeyRegistration_step authKeys publicKey :
  checkPublicKeyRegistration authKeys publicKey =
  match authKeys with
  | [] => (false, None)
  | _ :: _ =>
      match ParseAuthorizedKey authKeys with
      | Err err => (false, Some err)
      | Ok (authorizedPublicKey, _, _, rest) =>
          if bytes_Equal (PublicKey_Marshal authorizedPublicKey)
                         (PublicKey_Marshal publicKey)
          then (true, None)
          else checkPublicKeyRegistration rest publicKey
      end
  end.
Proof.
  destruct authKeys as [|b bs]; simp checkPublicKeyRegistration; trivial.
  destruct (inspect (ParseAuthorizedKey (b :: bs))) as [r e].
  destruct r as [[[[k c] o] rest]|err]; cbn; rewrite e; reflexivity.
Qed.

Lemma parsedEntries_step authKeys :
  parsedEntries authKeys =
  match authKeys with
  | [] => ([], None)
  | _ :: _ =>
      match ParseAuthorizedKey authKeys with
      | Err err => ([], Some err)
      | Ok (entry, _, _, rest) =>
          (entry :: fst (parsedEntries rest), snd (parsedEntries rest))
      end
  end.
Proof.
  destruct authKeys as [|b bs]; simp parsedEntries; trivial.
  destruct (inspect (ParseAuthorizedKey (b :: bs))) as [r e].
  destruct r as [[[[k c] o] rest]|err]; cbn; rewrite e; reflexivity.
Qed.

Lemma sameKey_true publicKey entry :
  sameKey publicKey entry = true <->
  PublicKey_Marshal entry = PublicKey_Marshal publicKey.
Proof. apply bytes_Equal_true. Qed.

(** The matcher against the entries parsed in sequence: it answers
    [true] when one of them matches, and otherwise [false] together with
    the way the parsing ended. *)
Lemma checkPublicKeyRegistration_entries authKeys publicKey :
  checkPublicKeyRegistration authKeys publicKey =
  if existsb (sameKey publicKey) (fst (parsedEntries authKeys))
  then (true, None)
  else (false, snd (parsedEntries authKeys)).
Proof.
  remember (List.length authKeys) as n eqn:Hn.
  revert authKeys Hn.
  induction n as [n IH] using lt_wf_ind. intros authKeys Hn.
  rewrite checkPublicKeyRegistration_step, parsedEntries_step.
  destruct authKeys as [|b bs]; [reflexivity|].
  destruct (ParseAuthorizedKey (b :: bs)) as [[[[k c] o] rest]|err] eqn:E;
    [|reflexivity].
  cbn [fst snd existsb]. unfold sameKey at 1.
  destruct (bytes_Equal (PublicKey_Marshal k) (PublicKey_Marshal publicKey));
    [reflexivity|].
  cbn [orb].
  apply ParseAuthorizedKey_rest in E.
  apply (IH (List.length rest)); [subst n; exact E | reflexivity].
Qed.

Lemma existsb_sameKey publicKey entries :
  existsb (sameKey publicKey) entries = true <->
  exists entry, In entry entries /\
                PublicKey_Marshal entry = PublicKey_Marshal publicKey.
Proof.
  rewrite existsb_exists. split; intros [e [Hin He]]; exists e; split;
    trivial; apply sameKey_true; exact He.
Qed.

(** C7.  [checkPublicKeyRegistration] scans the entries parsed in
    sequence from the authorized-keys bytes.  It returns [true] (and no
    error) exactly when one of the entries parsed before any parse error
    has the candidate's marshaled form; it returns [false] without error
    exactly when the bytes are exhausted with no entry matching; it
    returns [false] with the parse error exactly when parsing stopped at
    that error with no earlier entry matching.  One iteration decides on
    the first entry alone: a match there answers [true] whatever follows,
    and a parse error there aborts the scan with that error. *)
Theorem checkPublicKeyRegistration_scan authKeys publicKey :
  let entries := fst (parsedEntries authKeys) in
  let ending := snd (parsedEntries authKeys) in
  let matches := exists entry, In entry entries /\
                   PublicKey_Marshal entry = PublicKey_Marshal publicKey in
  (checkPublicKeyRegistration authKeys publicKey = (true, None)
     <-> matches)
  /\ (checkPublicKeyRegistration authKeys publicKey = (false, None)
     <-> ~ matches /\ ending = None)
  /\ (forall err,
       checkPublicKeyRegistration authKeys publicKey = (false, Some err)
       <-> ~ matches /\ ending = Some err)
  /\ (forall entry comment options rest,
       authKeys <> [] ->
       ParseAuthorizedKey authKeys = Ok (entry, comment, options, rest) ->
       PublicKey_Marshal entry = PublicKey_Marshal publicKey ->
       checkPublicKeyRegistration authKeys publicKey = (true, None))
  /\ (forall entry comment options rest,
       authKeys <> [] ->
       ParseAuthorizedKey authKeys = Ok (entry, comment, options, rest) ->
       PublicKey_Marshal entry <> PublicKey_Marshal publicKey ->
       checkPublicKeyRegistration authKeys publicKey =
       checkPublicKeyRegistration rest publicKey)
  /\ (forall err,
       authKeys <> [] ->
       ParseAuthorizedKey authKeys = Err err ->
       checkPublicKeyRegistration authKeys publicKey = (false, Some err)).
Proof.
  intros entries ending matches.
  pose proof (checkPublicKeyRegistration_entries authKeys publicKey) as E.
  pose proof (existsb_sameKey publicKey entries) as X.
  fold entries ending in E.
  assert (Hstep := checkPublicKeyRegistration_step authKeys publicKey).
  repeat split.
  - intros H. apply X. rewrite H in E.
    destruct (existsb (sameKey publicKey) entries); congruence.
  - intros H. apply X in H. rewrite H in E. exact E.
  - intros [e He]. rewrite H in E.
    assert (B : existsb (sameKey publicKey) entries = true)
      by (apply X; exists e; exact He).
    rewrite B in E. discriminate.
  - rewrite H in E.
    destruct (existsb (sameKey publicKey) entries); congruence.
  - intros [Hno Hend].
    destruct (existsb (sameKey publicKey) entries) eqn:B.
    + exfalso. apply Hno, X. reflexivity.
    + rewrite E, Hend. reflexivity.
  - intros [e He]. rewrite H in E.
    assert (B : existsb (sameKey publicKey) entries = true)
      by (apply X; exists e; exact He).
    rewrite B in E. discriminate.
  - rewrite H in E.
    destruct (existsb (sameKey publicKey) entries); congruence.
  - intros [Hno Hend].
    destruct (existsb (sameKey publicKey) entries) eqn:B.
    + exfalso. apply Hno, X. reflexivity.
    + rewrite E, Hend. reflexivity.
  - intros entry comment options rest Hne Hp Hm.
    destruct authKeys; [congruence|]. rewrite Hstep, Hp.
    apply bytes_Equal_true in Hm. rewrite Hm. reflexivity.
  - intros entry comment options rest Hne Hp Hm.
    destruct authKeys; [congruence|]. rewrite Hstep, Hp.
    destruct (bytes_Equal (PublicKey_Marshal entry)
                (PublicKey_Marshal publicKey)) eqn:B; [|reflexivity].
    apply bytes_Equal_true in B. contradiction.
  - intros err Hne Hp.
    destruct authKeys; [congruence|]. rewrite Hstep, Hp. reflexivity.
Qed.

End MatcherProperties.

(** ** The wire encoding *)

Section WireProperties.
Import Wire.

Lemma to_N_byte_of_N n : Byte.to_N (byte_of_N n) = (n mod 256)%N.
Proof.
  unfold byte_of_N. destruct (Byte.of_N (n mod 256)) as [b|] eqn:E.
  - apply Byte.to_of_N. exact E.
  - apply Byte.of_N_None_iff in E.
    pose proof (N.mod_upper_bound n 256). lia.
Qed.

Lemma uint32_putUint32 n :
  (n < 4294967296)%N ->
  match putUint32 n with
  | [b0; b1; b2; b3] => uint32 b0 b1 b2 b3 = n
  | _ => False
  end.
Proof.
  intros H. unfold putUint32, uint32. rewrite !to_N_byte_of_N.
  zify. Z.to_euclidean_division_equations. lia.
Qed.

Lemma putUint32_inj n m :
  (n < 4294967296)%N -> (m < 4294967296)%N ->
  putUint32 n = putUint32 m -> n = m.
Proof.
  intros Hn Hm E.
  pose proof (uint32_putUint32 Hn) as A.
  pose proof (uint32_putUint32 Hm) as B.
  rewrite E in A. unfold putUint32 in A, B. congruence.
Qed.

Lemma marshalString_inj s1 s2 t1 t2 :
  (len s1 < 4294967296)%N -> (len s2 < 4294967296)%N ->
  marshalString s1 ++ t1 = marshalString s2 ++ t2 ->
  s1 = s2 /\ t1 = t2.
Proof.
  intros H1 H2 E. unfold marshalString in E.
  rewrite !N.mod_small in E by assumption.
  assert (L : len s1 = len s2).
  { apply putUint32_inj; trivial. unfold putUint32 in *. simpl in E.
    congruence. }
  unfold putUint32 in E. simpl in E. inversion E as [[A B C D E']].
  unfold len in L. apply Nat2N.inj in L.
  revert E'. clear - L. revert s2 L.
  induction s1 as [|x s1 IH]; destruct s2 as [|y s2]; simpl; intros L E;
    try discriminate; auto.
  inversion E; subst. destruct (IH s2) as [-> ->]; auto.
Qed.

Lemma Marshal_userAuthRequestMsg_inj m1 m2 :
  let fits := fun m =>
    (len (list_byte_of_string (User m)) < 4294967296)%N
    /\ (len (list_byte_of_string (Service m)) < 4294967296)%N
    /\ (len (list_byte_of_string (Method m)) < 4294967296)%N in
  fits m1 -> fits m2 ->
  Codec.Marshal_userAuthRequestMsg m1 = Codec.Marshal_userAuthRequestMsg m2 ->
  m1 = m2.
Proof.
  intros fits (U1 & S1 & M1) (U2 & S2 & M2) E.
  unfold Codec.Marshal_userAuthRequestMsg, str in E.
  apply (f_equal (@List.tl byte)) in E. cbn [List.tl] in E.
  rename E into E1.
  apply marshalString_inj in E1; trivial. destruct E1 as [EU E1].
  apply marshalString_inj in E1; trivial. destruct E1 as [ES E1].
  apply marshalString_inj in E1; trivial. destruct E1 as [EM EP].
  destruct m1, m2; simpl in *. f_equal; trivial.
  - rewrite <- (string_of_list_byte_of_string User0),
      <- (string_of_list_byte_of_string User1). congruence.
  - rewrite <- (string_of_list_byte_of_string Service0),
      <- (string_of_list_byte_of_string Service1). congruence.
  - rewrite <- (string_of_list_byte_of_string Method0),
      <- (string_of_list_byte_of_string Method1). congruence.
Qed.

End WireProperties.

(** ** Session binding *)

Section SessionProperties.
Context `{lib : SSHLibrary} `{os : HostOS}.
Import Wire Codec.

(** The signed-for-auth data determines the session identifier it was built
    from (for identifiers whose length fits the length prefix). *)
Lemma buildDataSignedForAuth_session_inj sid1 sid2 req algo pubKey :
  (len sid1 < 4294967296)%N -> (len sid2 < 4294967296)%N ->
  buildDataSignedForAuth sid1 req algo pubKey =
  buildDataSignedForAuth sid2 req algo pubKey ->
  sid1 = sid2.
Proof.
  intros H1 H2 E. unfold buildDataSignedForAuth in E.
  apply marshalString_inj in E; tauto.
Qed.

(** C2.  [VerifySignature] hands the downstream key the signed-for-auth
    data built from the session identifier of the downstream transport,
    and its result does not depend on the upstream connection; [signAgain]
    hands the signer the data built from the session identifier of the
    upstream transport, and its result does not depend on the downstream
    connection.  Data built from two different session identifiers differ,
    so neither side can stand in for the other. *)
Theorem session_ids_not_interchanged (p : ProxyConn)
    (msg : userAuthRequestMsg) (publicKey : PublicKey) (sig : Signature)
    (user : string) (signer : Signer) :
  let downData :=
    buildDataSignedForAuth (getSessionID (Downstream p)) msg
      (list_byte_of_string (PublicKey_Type publicKey))
      (PublicKey_Marshal publicKey) in
  let upData :=
    buildDataSignedForAuth (getSessionID (Upstream p))
      {| User := user; Service := serviceSSH; Method := "publickey";
         Payload := [] |}
      (list_byte_of_string (PublicKey_Type (Signer_PublicKey signer)))
      (PublicKey_Marshal (Signer_PublicKey signer)) in
  VerifySignature p msg publicKey (Some sig) =
    (if isAcceptableAlgo (Format sig) then
       match PublicKey_Verify publicKey downData sig with
       | None => Returns (true, None)
       | Some _ => Returns (false, None)
       end
     else Returns (false, Some "ssh: algorithm not accepted"))
  /\ (forall up,
       VerifySignature (set_Upstream p up) msg publicKey (Some sig) =
       VerifySignature p msg publicKey (Some sig))
  /\ signAgain p user msg signer =
     match Signer_Sign signer (configRand (Upstream p)) upData with
     | Err err => Err err
     | Ok sign =>
         match Unmarshal_userAuthRequestMsg
                 (Marshal_publickeyAuthMsg
                    {| pk_User := user; pk_Service := serviceSSH;
                       pk_Method := "publickey"; pk_HasSig := true;
                       pk_Algoname :=
                         PublicKey_Type (Signer_PublicKey signer);
                       pk_PubKey :=
                         PublicKey_Marshal (Signer_PublicKey signer);
                       pk_Sig := marshalString (Marshal_Signature sign) |})
         with
         | Err err => Err err
         | Ok msg' => Ok msg'
         end
     end
  /\ (forall down,
       signAgain (set_Downstream p down) user msg signer =
       signAgain p user msg signer)
  /\ (forall sid req algo pubKey,
       (len sid < 4294967296)%N ->
       (len (getSessionID (Downstream p)) < 4294967296)%N ->
       sid <> getSessionID (Downstream p) ->
       buildDataSignedForAuth sid req algo pubKey <>
       buildDataSignedForAuth (getSessionID (Downstream p)) req algo pubKey)
  /\ (forall sid req algo pubKey,
       (len sid < 4294967296)%N ->
       (len (getSessionID (Upstream p)) < 4294967296)%N ->
       sid <> getSessionID (Upstream p) ->
       buildDataSignedForAuth sid req algo pubKey <>
       buildDataSignedForAuth (getSessionID (Upstream p)) req algo pubKey).
Proof.
  intros downData upData.
  split; [|split; [|split; [|split; [|split]]]].
  - unfold VerifySignature. fold downData.
    destruct (isAcceptableAlgo (Format sig)); reflexivity.
  - intros up. reflexivity.
  - unfold signAgain. fold upData.
    destruct (Signer_Sign signer (configRand (Upstream p)) upData);
      reflexivity.
  - intros down. reflexivity.
  - intros sid req algo pubKey H1 H2 Hne E. apply Hne.
    eapply buildDataSignedForAuth_session_inj; eassumption.
  - intros sid req algo pubKey H1 H2 Hne E. apply Hne.
    eapply buildDataSignedForAuth_session_inj; eassumption.
Qed.

End SessionProperties.

(** ** The bridge *)

Section BridgeProperties.
Context `{lib : SSHLibrary} `{os : HostOS}.
Import Wire Codec.

Lemma writePacket_spec (c : connection) packet :
  fst (writePacket c packet)
    = (if writeFails c then Some "write: broken pipe" else None)
  /\ outgoing (snd (writePacket c packet))
    = outgoing c ++ (if writeFails c then [] else [packet])
  /\ incoming (snd (writePacket c packet)) = incoming c
  /\ sessionID (snd (writePacket c packet)) = sessionID c
  /\ configRand (snd (writePacket c packet)) = configRand c.
Proof.
  unfold writePacket, writeFails.
  destruct (wfail c) as [|[] script]; simpl; rewrite ?app_nil_r; auto.
Qed.

Lemma readPacket_spec (c : connection) :
  outgoing (snd (readPacket c)) = outgoing c
  /\ sessionID (snd (readPacket c)) = sessionID c
  /\ configRand (snd (readPacket c)) = configRand c
  /\ wfail (snd (readPacket c)) = wfail c
  /\ match incoming c with
     | [] => readPacket c = (Err "EOF", c)
     | packet :: rest =>
         fst (readPacket c) = Ok packet
         /\ incoming (snd (readPacket c)) = rest
     end.
Proof.
  unfold readPacket. destruct (incoming c) eqn:E; simpl; repeat split; auto.
Qed.

(** A well-formed [publickey] request whose [has_sig] byte is zero parses
    as a query without a signature. *)
Lemma parsePublicKeyMsg_query msg rest publicKey isQuery sig :
  Payload msg = x00 :: rest ->
  parsePublicKeyMsg msg = Ok (publicKey, isQuery, sig) ->
  isQuery = true /\ sig = None.
Proof.
  intros HP. unfold parsePublicKeyMsg. rewrite HP.
  destruct (negb (String.eqb (Method msg) "publickey")); [discriminate|].
  destruct (parseString rest) as [[algoBytes payload]|]; [|discriminate].
  destruct (negb (isAcceptableAlgo (string_of_list_byte algoBytes)));
    [discriminate|].
  destruct (parseString payload) as [[pubKeyData payload']|]; [|discriminate].
  destruct (ParsePublicKey pubKeyData); [|discriminate].
  simpl. intros E; inversion E; auto.
Qed.

Lemma parsePublicKeyMsg_Method msg r :
  parsePublicKeyMsg msg = Ok r -> Method msg = "publickey".
Proof.
  unfold parsePublicKeyMsg.
  destruct (String.eqb (Method msg) "publickey") eqn:E; simpl;
    [|discriminate].
  intros _. apply String.eqb_eq. exact E.
Qed.

(** The configuration as [handleAuthMsg] leaves it: a missing
    authorized-keys hook is replaced by the home-directory reader. *)
Lemma handleAuthMsg_conf_default (c : ProxyConfig) :
  FetchAuthorizedKeysHook
    (match FetchAuthorizedKeysHook c with
     | None => set_FetchAuthorizedKeysHook c
                 (Some fetchAuthorizedKeysFromHomeDir)
     | Some _ => c
     end) <> None.
Proof.
  destruct (FetchAuthorizedKeysHook c) eqn:E; simpl; congruence.
Qed.

(** The hook [handleAuthMsg] calls for the authorized keys. *)
Lemma defaultFetchAuthorizedKeysHook_spec s :
  exists s0,
    defaultFetchAuthorizedKeysHook s = (Returns tt, s0)
    /\ conn s0 = conn s
    /\ FetchAuthorizedKeysHook (conf s0) =
       Some (match FetchAuthorizedKeysHook (conf s) with
             | Some hook => hook
             | None => fetchAuthorizedKeysFromHomeDir
             end)
    /\ FetchPrivateKeyHook (conf s0) = FetchPrivateKeyHook (conf s)
    /\ UseMasterKey (conf s0) = UseMasterKey (conf s)
    /\ MasterKeyPath (conf s0) = MasterKeyPath (conf s).
Proof.
  unfold defaultFetchAuthorizedKeysHook, bind, getConf, putConf, ret.
  destruct (FetchAuthorizedKeysHook (conf s)) eqn:E; eexists;
    (split; [reflexivity|]); simpl; auto.
Qed.

(** The state a query leaves behind: the hook defaulted, one write on the
    downstream connection. *)
Lemma handleAuthMsg_query msg s publicKey sig :
  parsePublicKeyMsg msg = Ok (publicKey, true, sig) ->
  let okMsg := Marshal_userAuthPubKeyOkMsg
                 {| Algo := PublicKey_Type publicKey;
                    PubKey := PublicKey_Marshal publicKey |} in
  let w := writePacket (Downstream (conn s)) okMsg in
  exists s',
    handleAuthMsg msg s = (Returns (None, fst w), s')
    /\ conn s' = set_Downstream (conn s) (snd w).
Proof.
  intros HP okMsg w.
  pose proof (parsePublicKeyMsg_Method _ HP) as HM.
  destruct (defaultFetchAuthorizedKeysHook_spec s) as (s0 & E0 & C0 & _).
  unfold handleAuthMsg. rewrite HM, String.eqb_refl.
  unfold bind at 1. rewrite E0, HP.
  unfold bind, sendOKMsg, Downstream_writePacket, ret. rewrite C0.
  fold okMsg. fold w. destruct w as [err c]. eexists; split; reflexivity.
Qed.

Lemma keeps_refl s : keeps s s.
Proof. repeat split. Qed.

Lemma keeps_trans s1 s2 s3 : keeps s1 s2 -> keeps s2 s3 -> keeps s1 s3.
Proof.
  unfold keeps, binds.
  intros (A & B & C & D & E) (A' & B' & C' & D' & E').
  repeat split; congruence.
Qed.

Lemma keeps_binds s s' : keeps s s' -> binds s s'.
Proof. unfold keeps. tauto. Qed.

Lemma binds_trans s1 s2 s3 : binds s1 s2 -> binds s2 s3 -> binds s1 s3.
Proof.
  unfold binds. intros (A & B & C & D) (A' & B' & C' & D').
  repeat split; congruence.
Qed.

(** A read or a write on the downstream connection. *)
Lemma binds_Downstream s s' c :
  conn s' = set_Downstream (conn s) c ->
  conf s' = conf s ->
  sessionID c = sessionID (Downstream (conn s)) ->
  binds s s'.
Proof.
  intros C F S. unfold binds. rewrite C, F. simpl. auto.
Qed.

(** A read or a write on the upstream connection. *)
Lemma keeps_Upstream s s' c :
  conn s' = set_Upstream (conn s) c ->
  conf s' = conf s ->
  sessionID c = sessionID (Upstream (conn s)) ->
  configRand c = configRand (Upstream (conn s)) ->
  keeps s s'.
Proof.
  intros C F S R. unfold keeps, binds. rewrite C, F. simpl. auto.
Qed.

Lemma keeps_Downstream s s' c :
  conn s' = set_Downstream (conn s) c ->
  conf s' = conf s ->
  sessionID c = sessionID (Downstream (conn s)) ->
  incoming c = incoming (Downstream (conn s)) ->
  keeps s s'.
Proof.
  intros C F S I. split; [rewrite C; exact I|].
  eapply binds_Downstream; eassumption.
Qed.

Lemma Downstream_writePacket_spec packet s :
  exists s',
    Downstream_writePacket packet s
      = (Returns (fst (writePacket (Downstream (conn s)) packet)), s')
    /\ conn s'
      = set_Downstream (conn s)
          (snd (writePacket (Downstream (conn s)) packet))
    /\ conf s' = conf s.
Proof.
  unfold Downstream_writePacket.
  destruct (writePacket (Downstream (conn s)) packet).
  eexists; repeat split.
Qed.

Lemma handleAuthMsg_failure_spec msg s :
  exists err s',
    handleAuthMsg_failure (Some msg) s = (Returns (None, err), s')
    /\ Upstream (conn s') = Upstream (conn s)
    /\ keeps s s'.
Proof.
  unfold handleAuthMsg_failure, sendFailureMsg, bind, ret.
  destruct (Downstream_writePacket_spec
              (Marshal_userAuthFailureMsg
                 {| Methods := [] ++ [Method msg]; PartialSuccess := false |})
              s) as (s' & E & C & F).
  rewrite E. eexists; eexists; split; [reflexivity|].
  destruct (writePacket_spec (Downstream (conn s))
              (Marshal_userAuthFailureMsg
                 {| Methods := [Method msg]; PartialSuccess := false |}))
    as (_ & _ & I & S & _).
  split; [rewrite C; reflexivity|].
  eapply keeps_Downstream; eassumption.
Qed.

(** Every way out of the [publickey] branch of [handleAuthMsg]. *)
Lemma handleAuthMsg_publickey msg s out s' :
  Method msg = "publickey" ->
  handleAuthMsg msg s = (out, s') ->
  Upstream (conn s') = Upstream (conn s)
  /\ keeps s s'
  /\ match out with
     | Returns (Some m, err) =>
         err = None
         /\ conn s' = conn s
         /\ (m = noneAuthMsg (User msg)
             \/ (Gate s msg
                 /\ exists signer,
                      signAgain (conn s) (User msg) msg signer = Ok m))
     | Returns (None, _) => True
     | Panics _ => conn s' = conn s
     | Diverges => False
     end.
Proof.
  intros HM H.
  destruct (defaultFetchAuthorizedKeysHook_spec s)
    as (s0 & E0 & C0 & F0 & P0 & U0 & M0).
  assert (K0 : keeps s s0).
  { unfold keeps, binds, authorizedKeysHook. rewrite C0, F0. auto. }
  unfold handleAuthMsg in H. rewrite HM, String.eqb_refl in H.
  unfold bind at 1 in H. rewrite E0 in H.
  destruct (parsePublicKeyMsg msg) as [[[publicKey isQuery] sig]|e] eqn:HP.
  2:{ destruct (handleAuthMsg_failure_spec msg s0) as (err & s1 & E & U & K).
      rewrite E in H. inversion H; subst.
      rewrite U, C0. split; [reflexivity|]. split; [|exact I].
      eapply keeps_trans; eassumption. }
  destruct isQuery.
  { unfold bind, sendOKMsg, ret in H.
    match type of H with context [Downstream_writePacket ?p s0] =>
      destruct (Downstream_writePacket_spec p s0) as (s1 & E & C & F);
      destruct (writePacket_spec (Downstream (conn s0)) p)
        as (_ & _ & I & S & _)
    end.
    rewrite E in H. inversion H; subst.
    rewrite C. simpl. rewrite C0. split; [reflexivity|]. split; [|exact Logic.I].
    eapply keeps_trans; [exact K0|].
    eapply keeps_Downstream; eassumption. }
  unfold bind at 1 in H. unfold getConf in H. rewrite F0 in H.
  fold (authorizedKeysHook (conf s)) in H.
  destruct (authorizedKeysHook (conf s) (User msg)) as [authKeys|e] eqn:HF.
  2:{ inversion H; subst. rewrite C0. repeat split; auto; apply K0. }
  destruct (checkPublicKeyRegistration authKeys publicKey) as [[] [e|]]
    eqn:HC;
    try (inversion H; subst; rewrite C0; repeat split; auto; apply K0).
  unfold bind at 1 in H. unfold getConn in H.
  unfold bind at 1 in H. unfold liftOutcome in H.
  destruct (VerifySignature (conn s0) msg publicKey sig)
    as [[ok verr]|why|] eqn:HV.
  3:{ unfold VerifySignature in HV. destruct sig as [sig|]; [|discriminate].
      destruct (negb (isAcceptableAlgo (Format sig))); [discriminate|].
      destruct PublicKey_Verify; discriminate. }
  2:{ inversion H; subst. rewrite C0. repeat split; auto; apply K0. }
  assert (Hfail : forall r, handleAuthMsg_failure (Some msg) s0 = r ->
            r = (out, s') ->
            Upstream (conn s') = Upstream (conn s) /\ keeps s s'
            /\ match out with
               | Returns (Some m, err) =>
                   err = None /\ conn s' = conn s
                   /\ (m = noneAuthMsg (User msg)
                       \/ (Gate s msg
                           /\ exists signer,
                              signAgain (conn s) (User msg) msg signer = Ok m))
               | Returns (None, _) => True
               | Panics _ => conn s' = conn s
               | Diverges => False
               end).
  { intros r Er Eo.
    destruct (handleAuthMsg_failure_spec msg s0) as (err & s1 & E & U & K).
    rewrite E in Er. subst r. inversion Eo; subst.
    rewrite U, C0. split; [reflexivity|]. split; [|exact I].
    eapply keeps_trans; eassumption. }
  destruct ok; [|eapply Hfail; [reflexivity | exact H]].
  destruct verr; [eapply Hfail; [reflexivity | exact H]|].
  destruct (fetchPrivateKey (conf s0) (ProxyUser (conn s0)))
    as [privateBytes|e]; [|eapply Hfail; [reflexivity | exact H]].
  destruct (ParsePrivateKey privateBytes) as [[signer|]|e];
    try (eapply Hfail; [reflexivity | exact H]).
  simpl in H. unfold bind, getConn in H.
  assert (G : Gate s msg).
  { destruct sig as [sig|]; [|discriminate].
    exists publicKey, sig, authKeys. rewrite <- C0. auto. }
  destruct (signAgain (conn s0) (User msg) msg signer) as [m|e] eqn:HS.
  - unfold ret in H. inversion H; subst. rewrite C0. repeat split; auto;
      try apply K0.
    right. split; [exact G|]. exists signer. rewrite <- C0. exact HS.
  - unfold handleAuthMsg_failure, panic in H. inversion H; subst.
    rewrite C0. repeat split; auto; apply K0.
Qed.

(** A request of another method comes back as it is, and nothing is
    touched. *)
Lemma handleAuthMsg_passthrough msg s :
  Method msg <> "publickey" ->
  handleAuthMsg msg s = (Returns (Some msg, None), s).
Proof.
  intros HM. unfold handleAuthMsg.
  destruct (String.eqb (Method msg) "publickey") eqn:E.
  - apply String.eqb_eq in E. contradiction.
  - destruct (String.eqb (Method msg) "password"); reflexivity.
Qed.

Lemma Upstream_readPacket_spec s :
  exists s',
    Upstream_readPacket s = (Returns (fst (readPacket (Upstream (conn s)))), s')
    /\ conn s' = set_Upstream (conn s) (snd (readPacket (Upstream (conn s))))
    /\ conf s' = conf s.
Proof.
  unfold Upstream_readPacket. destruct (readPacket (Upstream (conn s))).
  eexists; repeat split.
Qed.

Lemma Downstream_readPacket_spec s :
  exists s',
    Downstream_readPacket s
      = (Returns (fst (readPacket (Downstream (conn s)))), s')
    /\ conn s'
      = set_Downstream (conn s) (snd (readPacket (Downstream (conn s))))
    /\ conf s' = conf s.
Proof.
  unfold Downstream_readPacket. destruct (readPacket (Downstream (conn s))).
  eexists; repeat split.
Qed.

Lemma Upstream_writePacket_spec packet s :
  exists s',
    Upstream_writePacket packet s
      = (Returns (fst (writePacket (Upstream (conn s)) packet)), s')
    /\ conn s'
      = set_Upstream (conn s) (snd (writePacket (Upstream (conn s)) packet))
    /\ conf s' = conf s.
Proof.
  unfold Upstream_writePacket.
  destruct (writePacket (Upstream (conn s)) packet).
  eexists; repeat split.
Qed.

(** The relay loop writes nothing upstream, leaves the downstream input
    alone, and ends within the fuel [relayFuel] gives it; it panics only
    on an empty upstream packet. *)
Lemma relayUpstream_spec fuel : forall s out s',
  relayUpstream fuel s = (out, s') ->
  outgoing (Upstream (conn s')) = outgoing (Upstream (conn s))
  /\ keeps s s'
  /\ (List.length (incoming (Upstream (conn s))) < fuel -> out <> Diverges)
  /\ (Forall (fun packet => packet <> []) (incoming (Upstream (conn s))) ->
      forall why, out <> Panics why).
Proof.
  induction fuel as [|fuel IH]; intros s out s' H; simpl in H.
  - unfold diverge in H. inversion H; subst.
    repeat split; try lia. intros _ why. discriminate.
  - unfold bind at 1 in H.
    destruct (Upstream_readPacket_spec s) as (s1 & E1 & C1 & F1).
    destruct (readPacket_spec (Upstream (conn s))) as (O1 & S1 & _ & _ & R1).
    rewrite E1 in H.
    assert (K1 : keeps s s1).
    { destruct (readPacket_spec (Upstream (conn s))) as (_ & ? & ? & _).
      eapply keeps_Upstream; eassumption. }
    assert (U1 : outgoing (Upstream (conn s1)) = outgoing (Upstream (conn s))).
    { rewrite C1. simpl. exact O1. }
    destruct (incoming (Upstream (conn s))) as [|packet rest] eqn:In1.
    + rewrite R1 in H. simpl in H. unfold ret in H. inversion H; subst.
      repeat split; try apply K1; try exact U1; try discriminate.
    + destruct R1 as [R1 R2]. rewrite R1 in H.
      unfold bind at 1 in H.
      destruct packet as [|msgType packet].
      * simpl in H. unfold panic in H. inversion H; subst.
        repeat split; try apply K1; try exact U1; try discriminate.
        intros HF. inversion HF; subst. congruence.
      * simpl in H. unfold ret at 1 in H. unfold bind at 1 in H.
        destruct (Downstream_writePacket_spec (msgType :: packet) s1)
          as (s2 & E2 & C2 & F2).
        destruct (writePacket_spec (Downstream (conn s1)) (msgType :: packet))
          as (W2 & _ & I2 & S2 & _).
        rewrite E2 in H.
        assert (K2 : keeps s s2).
        { eapply keeps_trans; [exact K1|].
          eapply keeps_Downstream; eassumption. }
        assert (U2 : outgoing (Upstream (conn s2))
                     = outgoing (Upstream (conn s))).
        { rewrite C2. simpl. exact U1. }
        assert (I3 : incoming (Upstream (conn s2)) = rest).
        { rewrite C2. simpl. rewrite C1. simpl. exact R2. }
        destruct (fst (writePacket (Downstream (conn s1)) (msgType :: packet))).
        { unfold ret in H. inversion H; subst.
          repeat split; try apply K2; try exact U2; try discriminate. }
        destruct (Byte.eqb msgType msgUserAuthSuccess).
        { unfold ret in H. inversion H; subst.
          repeat split; try apply K2; try exact U2; try discriminate. }
        destruct (Byte.eqb msgType msgUserAuthBanner).
        { apply IH in H. destruct H as (A & B & C & D).
          split; [congruence|]. split; [eapply keeps_trans; eassumption|].
          rewrite I3 in C, D. split.
          - intros L. apply C. simpl in L. lia.
          - intros HF. apply D. inversion HF; assumption. }
        unfold ret in H. inversion H; subst.
        repeat split; try apply K2; try exact U2; try discriminate.
Qed.

(** The bridge step's upstream traffic is the one packet it is given. *)
Lemma checkBridgeAuthWithNoBanner_spec packet s out s' :
  checkBridgeAuthWithNoBanner packet s = (out, s') ->
  outgoing (Upstream (conn s'))
    = outgoing (Upstream (conn s))
        ++ (if writeFails (Upstream (conn s)) then [] else [packet])
  /\ keeps s s'
  /\ out <> Diverges
  /\ (Forall (fun packet => packet <> []) (incoming (Upstream (conn s))) ->
      forall why, out <> Panics why).
Proof.
  unfold checkBridgeAuthWithNoBanner. intros H. unfold bind in H.
  destruct (Upstream_writePacket_spec packet s) as (s1 & E1 & C1 & F1).
  destruct (writePacket_spec (Upstream (conn s)) packet)
    as (W1 & O1 & I1 & S1 & _).
  rewrite E1 in H.
  assert (K1 : keeps s s1).
  { destruct (writePacket_spec (Upstream (conn s)) packet)
      as (_ & _ & _ & ? & ?).
    eapply keeps_Upstream; eassumption. }
  assert (U1 : outgoing (Upstream (conn s1))
               = outgoing (Upstream (conn s))
                   ++ (if writeFails (Upstream (conn s)) then []
                       else [packet])).
  { rewrite C1. simpl. exact O1. }
  destruct (fst (writePacket (Upstream (conn s)) packet)).
  - unfold ret in H. inversion H; subst.
    repeat split; try apply K1; try exact U1; try discriminate.
  - apply relayUpstream_spec in H. destruct H as (A & B & C & D).
    split; [congruence|]. split; [eapply keeps_trans; eassumption|].
    split.
    + apply C. unfold relayFuel. lia.
    + intros HF. apply D. rewrite C1. simpl. rewrite I1. exact HF.
Qed.

Lemma Gate_binds s s' msg : binds s s' -> Gate s' msg -> Gate s msg.
Proof.
  intros (S & A & _) (publicKey & sig & authKeys & HP & HF & HC & HV).
  exists publicKey, sig, authKeys. rewrite <- A. repeat split; trivial.
  unfold VerifySignature, getSessionID in *. rewrite <- S. exact HV.
Qed.

(** The next-request phase: one downstream packet is consumed, nothing is
    written, and the packet decides the result. *)
Lemma nextRequest_spec s out s' :
  nextRequest s = (out, s') ->
  Upstream (conn s') = Upstream (conn s)
  /\ outgoing (Downstream (conn s')) = outgoing (Downstream (conn s))
  /\ binds s s'
  /\ match incoming (Downstream (conn s)) with
     | [] =>
         out = Returns (Err "EOF") /\ incoming (Downstream (conn s')) = []
     | packet :: rest =>
         incoming (Downstream (conn s')) = rest
         /\ match packet with
            | [] => out = Panics "index out of range [0] with length 0"
            | b :: _ =>
                if Byte.eqb b msgUserAuthRequest
                then out = Returns (Unmarshal_userAuthRequestMsg packet)
                else out = Returns (Err errNotAuthRequest)
            end
     end.
Proof.
  unfold nextRequest. intros H. unfold bind at 1 in H.
  destruct (Downstream_readPacket_spec s) as (s1 & E1 & C1 & F1).
  destruct (readPacket_spec (Downstream (conn s))) as (O1 & S1 & _ & _ & R1).
  rewrite E1 in H.
  assert (B1 : binds s s1) by (eapply binds_Downstream; eassumption).
  assert (U1 : Upstream (conn s1) = Upstream (conn s))
    by (rewrite C1; reflexivity).
  assert (D1 : outgoing (Downstream (conn s1))
               = outgoing (Downstream (conn s)))
    by (rewrite C1; exact O1).
  destruct (incoming (Downstream (conn s))) as [|packet rest] eqn:In1.
  - rewrite R1 in H. simpl in H. unfold ret in H. inversion H; subst.
    refine (conj U1 (conj D1 (conj B1 (conj eq_refl _)))).
    rewrite C1. simpl. rewrite R1. simpl. exact In1.
  - destruct R1 as [R1 R2]. rewrite R1 in H.
    assert (I1 : incoming (Downstream (conn s1)) = rest)
      by (rewrite C1; exact R2).
    destruct packet as [|b packet]; unfold index0 in H.
    + unfold bind, panic in H. inversion H; subst.
      (split; [exact U1|]; split; [exact D1|]; split; [exact B1|];
           split; [exact I1 | reflexivity]).
    + unfold bind, ret in H.
      destruct (Byte.eqb b msgUserAuthRequest); inversion H; subst;
        (split; [exact U1|]; split; [exact D1|]; split; [exact B1|];
           split; [exact I1 | reflexivity]).
Qed.

(** Translate, then bridge: what reaches the upstream is nothing, or the
    marshaled request [handleAuthMsg] returned. *)
Lemma bridgeStep_spec msg s out s' :
  bridgeStep msg s = (out, s') ->
  keeps s s'
  /\ out <> Diverges
  /\ exists sent,
      outgoing (Upstream (conn s')) = outgoing (Upstream (conn s)) ++ sent
      /\ (sent = []
          \/ exists m, sent = [Marshal_userAuthRequestMsg m]
                       /\ Emits s msg m).
Proof.
  unfold bridgeStep. intros H. unfold bind in H.
  destruct (handleAuthMsg msg s) as [o s1] eqn:HH.
  assert (X : Upstream (conn s1) = Upstream (conn s) /\ keeps s s1
              /\ match o with
                 | Returns (Some m, _) => conn s1 = conn s /\ Emits s msg m
                 | Returns (None, _) => True
                 | Panics _ => True
                 | Diverges => False
                 end).
  { destruct (string_dec (Method msg) "publickey") as [HM|HM].
    - destruct (handleAuthMsg_publickey _ _ HM HH) as (U & K & C).
      split; [exact U|]. split; [exact K|].
      destruct o as [[[m|] err]|why|]; trivial.
      destruct C as (_ & C & D). split; [exact C|]. right. tauto.
    - rewrite handleAuthMsg_passthrough in HH by exact HM.
      inversion HH; subst.
      repeat split. left. tauto. }
  destruct X as (U & K & C).
  destruct o as [[[m|] err]|why|]; simpl in H.
  - destruct C as [C Em].
    destruct (checkBridgeAuthWithNoBanner_spec _ _ H) as (O & K2 & ND & _).
    split; [eapply keeps_trans; eassumption|]. split; [exact ND|].
    rewrite U in O. eexists; split; [exact O|].
    destruct (writeFails (Upstream (conn s))); [left; reflexivity|].
    right. exists m. tauto.
  - unfold ret in H. inversion H; subst. split; [exact K|].
    split; [discriminate|]. exists []. rewrite app_nil_r, U. tauto.
  - inversion H; subst. split; [exact K|].
    split; [discriminate|]. exists []. rewrite app_nil_r, U. tauto.
  - contradiction.
Qed.

Lemma Emits_binds s s' msg m : binds s s' -> Emits s' msg m -> Emits s msg m.
Proof.
  intros B [E|[HM [E|[G [signer HS]]]]]; [left; exact E | right.. ].
  - split; [exact HM|]. left; exact E.
  - split; [exact HM|]. right. split; [eapply Gate_binds; eassumption|].
    exists signer. destruct B as (_ & _ & S & R).
    unfold signAgain, getSessionID in *. rewrite <- S, <- R. exact HS.
Qed.


(** One iteration of the loop of [AuthenticateProxyConn]. *)
Lemma authLoop_step fuel msg s out s' :
  authLoop (S fuel) msg s = (out, s') ->
  exists o1 s1,
    bridgeStep msg s = (o1, s1)
    /\ match o1 with
       | Returns (_, Some err) => out = Returns (Some err) /\ s' = s1
       | Returns (true, None) => out = Returns None /\ s' = s1
       | Returns (false, None) =>
           exists o2 s2,
             nextRequest s1 = (o2, s2)
             /\ match o2 with
                | Returns (Ok req) => authLoop fuel req s2 = (out, s')
                | Returns (Err err) => out = Returns (Some err) /\ s' = s2
                | Panics why => out = Panics why /\ s' = s2
                | Diverges => out = Diverges /\ s' = s2
                end
       | Panics why => out = Panics why /\ s' = s1
       | Diverges => out = Diverges /\ s' = s1
       end.
Proof.
  intros H. simpl in H. unfold bind at 1 in H.
  destruct (bridgeStep msg s) as [o1 s1]. exists o1, s1.
  split; [reflexivity|].
  destruct o1 as [[ok [err|]]|why|]; unfold ret in H.
  - destruct ok; inversion H; auto.
  - destruct ok; [inversion H; auto|].
    unfold bind in H. destruct (nextRequest s1) as [o2 s2].
    exists o2, s2. split; [reflexivity|].
    destruct o2 as [[req|err]|why|]; trivial; inversion H; auto.
  - inversion H; auto.
  - inversion H; auto.
Qed.

Lemma Unmarshal_userAuthRequestMsg_type packet req :
  Unmarshal_userAuthRequestMsg packet = Ok req ->
  exists rest, packet = msgUserAuthRequest :: rest.
Proof.
  destruct packet as [|t rest]; simpl; [discriminate|].
  destruct (Byte.eqb t msgUserAuthRequest) eqn:E; [|discriminate].
  intros _. exists rest. f_equal. apply Byte.byte_dec_bl. exact E.
Qed.

(** The whole loop: it ends within its fuel; what it writes upstream are
    allowed packets; the downstream packets it consumed are a prefix of
    the pending ones, and one whose message number is not
    [USERAUTH_REQUEST] is the last one consumed and ends the loop with the
    error. *)
Lemma authLoop_spec fuel : forall msg s out s',
  authLoop fuel msg s = (out, s') ->
  (List.length (incoming (Downstream (conn s))) < fuel -> out <> Diverges)
  /\ binds s s'
  /\ exists sent consumed,
      outgoing (Upstream (conn s')) = outgoing (Upstream (conn s)) ++ sent
      /\ incoming (Downstream (conn s))
         = consumed ++ incoming (Downstream (conn s'))
      /\ Forall (Allowed s msg consumed) sent
      /\ (forall pre b body post,
            consumed = pre ++ (b :: body) :: post ->
            b <> msgUserAuthRequest ->
            post = [] /\ out = Returns (Some errNotAuthRequest)).
Proof.
  induction fuel as [|fuel IH]; intros msg s out s' H.
  - simpl in H. unfold diverge in H. inversion H; subst.
    split; [lia|]. split; [repeat split|].
    exists [], []. split; [rewrite app_nil_r; reflexivity|].
    split; [reflexivity|]. split; [constructor|].
    intros pre b body post E. destruct pre; discriminate.
  - apply authLoop_step in H. destruct H as (o1 & s1 & HB & H).
    destruct (bridgeStep_spec _ _ HB) as (K1 & ND1 & sent1 & O1 & HS1).
    assert (A1 : forall consumed, Forall (Allowed s msg consumed) sent1).
    { intros consumed. destruct HS1 as [->|(m & -> & Em)]; constructor; auto.
      exists msg, m. split; [left; reflexivity|]. split; trivial. }
    assert (Stop : forall o, out = o /\ s' = s1 -> o <> Diverges ->
              (List.length (incoming (Downstream (conn s))) < S fuel ->
               out <> Diverges)
              /\ binds s s'
              /\ exists sent consumed,
                  outgoing (Upstream (conn s'))
                    = outgoing (Upstream (conn s)) ++ sent
                  /\ incoming (Downstream (conn s))
                     = consumed ++ incoming (Downstream (conn s'))
                  /\ Forall (Allowed s msg consumed) sent
                  /\ (forall pre b body post,
                        consumed = pre ++ (b :: body) :: post ->
                        b <> msgUserAuthRequest ->
                        post = [] /\ out = Returns (Some errNotAuthRequest))).
    { intros o [-> ->] Ho. split; [intros _; exact Ho|].
      split; [apply keeps_binds; exact K1|].
      exists sent1, []. split; [exact O1|].
      split; [symmetry; apply K1|]. split; [apply A1|].
      intros pre b body post E. destruct pre; discriminate. }
    destruct o1 as [[ok [err|]]|why|];
      [ destruct ok; (eapply Stop; [exact H | discriminate])
      |
      | eapply Stop; [exact H | discriminate]
      | exfalso; apply ND1; reflexivity ].
    destruct ok; [eapply Stop; [exact H | discriminate]|].
    destruct H as (o2 & s2 & HN & H).
    destruct (nextRequest_spec _ HN) as (U2 & D2 & B2 & R2).
    destruct K1 as (I1 & B1).
    assert (B12 : binds s s2) by (eapply binds_trans; eassumption).
    destruct (incoming (Downstream (conn s1))) as [|packet rest] eqn:In1.
    { destruct R2 as [-> R2]. destruct H as [-> ->].
      split; [discriminate|]. split; [exact B12|].
      exists sent1, []. rewrite U2. split; [exact O1|].
      split; [rewrite R2, <- I1; reflexivity|]. split; [apply A1|].
      intros pre b body post E. destruct pre; discriminate. }
    destruct R2 as [R2 R3].
    assert (Last : forall o, out = o /\ s' = s2 -> o <> Diverges ->
              (forall b body, packet = b :: body ->
                 b <> msgUserAuthRequest ->
                 o = Returns (Some errNotAuthRequest)) ->
              (List.length (incoming (Downstream (conn s))) < S fuel ->
               out <> Diverges)
              /\ binds s s'
              /\ exists sent consumed,
                  outgoing (Upstream (conn s'))
                    = outgoing (Upstream (conn s)) ++ sent
                  /\ incoming (Downstream (conn s))
                     = consumed ++ incoming (Downstream (conn s'))
                  /\ Forall (Allowed s msg consumed) sent
                  /\ (forall pre b body post,
                        consumed = pre ++ (b :: body) :: post ->
                        b <> msgUserAuthRequest ->
                        post = [] /\ out = Returns (Some errNotAuthRequest))).
    { intros o [-> ->] Ho Hb. split; [intros _; exact Ho|].
      split; [exact B12|].
      exists sent1, [packet]. rewrite U2. split; [exact O1|].
      split; [rewrite R2, <- I1; reflexivity|]. split; [apply A1|].
      intros pre b body post E Hne.
      destruct pre as [|x pre]; simpl in E.
      - inversion E; subst. split; [reflexivity|]. eapply Hb; eauto.
      - inversion E as [[Ex E']]. destruct pre; discriminate. }
    destruct packet as [|b body].
    { subst o2. eapply Last; [exact H | discriminate|].
      intros; discriminate. }
    destruct (Byte.eqb b msgUserAuthRequest) eqn:Eb.
    2:{ subst o2. eapply Last; [exact H | discriminate|].
        intros; reflexivity. }
    assert (Hb : b = msgUserAuthRequest) by (apply Byte.byte_dec_bl; exact Eb).
    subst o2.
    destruct (Unmarshal_userAuthRequestMsg (b :: body)) as [req|err] eqn:HU.
    2:{ eapply Last; [exact H | discriminate|].
        intros b' body' E Hne. inversion E; subst. contradiction. }
    apply IH in H.
    destruct H as (ND & B3 & sent2 & consumed2 & O3 & I3 & A3 & L3).
    split.
    { intros L. apply ND. rewrite R2. rewrite <- I1 in L. simpl in L. lia. }
    split; [eapply binds_trans; eassumption|].
    exists (sent1 ++ sent2), ((b :: body) :: consumed2).
    split; [rewrite O3, U2, O1, app_assoc; reflexivity|].
    split; [rewrite <- I1; simpl; rewrite <- I3, R2; reflexivity|].
    split.
    + apply Forall_app. split; [apply A1|].
      eapply Forall_impl; [|exact A3].
      intros pkt (r & m & P & Em & ->). exists r, m. split; [|split].
      * right. destruct P as [->|(packet & Hin & Hp)].
        -- exists (b :: body). split; [left; reflexivity | exact HU].
        -- exists packet. split; [right; exact Hin | exact Hp].
      * eapply Emits_binds; eassumption.
      * reflexivity.
    + intros pre b' body' post E Hne.
      destruct pre as [|x pre]; simpl in E.
      * inversion E; subst. contradiction.
      * inversion E as [[Ex E']]. eapply L3; eassumption.
Qed.

(** The service request: one upstream write, one upstream read, nothing
    on the downstream side. *)
Lemma sendAuthReq_spec s o s1 :
  sendAuthReq s = (o, s1) ->
  (exists err, o = Returns err)
  /\ keeps s s1
  /\ outgoing (Upstream (conn s1))
     = outgoing (Upstream (conn s))
         ++ (if writeFails (Upstream (conn s)) then []
             else [Marshal_serviceRequestMsg serviceUserAuth]).
Proof.
  unfold sendAuthReq. intros H. unfold bind at 1 in H.
  destruct (Upstream_writePacket_spec
              (Marshal_serviceRequestMsg serviceUserAuth) s)
    as (s0 & E0 & C0 & F0).
  destruct (writePacket_spec (Upstream (conn s))
              (Marshal_serviceRequestMsg serviceUserAuth))
    as (_ & O0 & _ & S0 & R0).
  rewrite E0 in H.
  assert (K0 : keeps s s0) by (eapply keeps_Upstream; eassumption).
  assert (U0 : outgoing (Upstream (conn s0))
               = outgoing (Upstream (conn s))
                   ++ (if writeFails (Upstream (conn s)) then []
                       else [Marshal_serviceRequestMsg serviceUserAuth]))
    by (rewrite C0; exact O0).
  destruct (fst (writePacket (Upstream (conn s))
                   (Marshal_serviceRequestMsg serviceUserAuth))).
  { unfold ret in H. inversion H; subst. eauto. }
  unfold bind in H.
  destruct (Upstream_readPacket_spec s0) as (s2 & E2 & C2 & F2).
  destruct (readPacket_spec (Upstream (conn s0))) as (O2 & S2 & R2 & _).
  rewrite E2 in H.
  assert (K2 : keeps s s2).
  { eapply keeps_trans; [exact K0|]. eapply keeps_Upstream; eassumption. }
  assert (U2 : outgoing (Upstream (conn s2)) = outgoing (Upstream (conn s0)))
    by (rewrite C2; exact O2).
  rewrite <- U2 in U0.
  destruct (fst (readPacket (Upstream (conn s0)))) as [packet|err].
  - destruct (Unmarshal_serviceAcceptMsg packet); unfold ret in H;
      inversion H; subst; eauto.
  - unfold ret in H. inversion H; subst. eauto.
Qed.

(** The whole of [AuthenticateProxyConn]. *)
Lemma AuthenticateProxyConn_spec init s out s' :
  AuthenticateProxyConn init s = (out, s') ->
  out <> Diverges
  /\ binds s s'
  /\ exists sent consumed,
      outgoing (Upstream (conn s'))
        = outgoing (Upstream (conn s))
            ++ (if writeFails (Upstream (conn s)) then []
                else [Marshal_serviceRequestMsg serviceUserAuth])
            ++ sent
      /\ incoming (Downstream (conn s))
         = consumed ++ incoming (Downstream (conn s'))
      /\ Forall (Allowed s init consumed) sent
      /\ (forall pre b body post,
            consumed = pre ++ (b :: body) :: post ->
            b <> msgUserAuthRequest ->
            post = [] /\ out = Returns (Some errNotAuthRequest)).
Proof.
  unfold AuthenticateProxyConn. intros H. unfold bind in H.
  destruct (sendAuthReq s) as [o s1] eqn:HS.
  destruct (sendAuthReq_spec _ HS) as ([err ->] & (I1 & B1) & O1).
  destruct err as [err|].
  - unfold ret in H. inversion H; subst.
    split; [discriminate|]. split; [exact B1|].
    exists [], []. rewrite app_nil_r. split; [exact O1|].
    split; [symmetry; exact I1|]. split; [constructor|].
    intros pre b body post E. destruct pre; discriminate.
  - apply authLoop_spec in H.
    destruct H as (ND & B2 & sent & consumed & O2 & I2 & A2 & L2).
    split; [apply ND; unfold authFuel; lia|].
    split; [eapply binds_trans; eassumption|].
    exists sent, consumed. split; [rewrite O2, O1, app_assoc; reflexivity|].
    split; [rewrite <- I1; exact I2|]. split; [|exact L2].
    eapply Forall_impl; [|exact A2].
    intros pkt (r & m & P & Em & ->). exists r, m.
    split; [exact P|]. split; [|reflexivity].
    eapply Emits_binds; eassumption.
Qed.

(** A signed attempt whose key is not vouched for by the authorized keys
    comes back as the [none] request; nothing is written. *)
Lemma handleAuthMsg_unauthorized msg s publicKey sig :
  parsePublicKeyMsg msg = Ok (publicKey, false, sig) ->
  match authorizedKeysHook (conf s) (User msg) with
  | Err _ => True
  | Ok authKeys =>
      checkPublicKeyRegistration authKeys publicKey <> (true, None)
  end ->
  exists s0,
    handleAuthMsg msg s = (Returns (Some (noneAuthMsg (User msg)), None), s0)
    /\ conn s0 = conn s
    /\ keeps s s0.
Proof.
  intros HP HA.
  pose proof (parsePublicKeyMsg_Method _ HP) as HM.
  destruct (defaultFetchAuthorizedKeysHook_spec s)
    as (s0 & E0 & C0 & F0 & P0 & U0 & M0).
  assert (K0 : keeps s s0).
  { unfold keeps, binds, authorizedKeysHook. rewrite C0, F0. auto. }
  exists s0. split; [|split; [exact C0 | exact K0]].
  unfold handleAuthMsg. rewrite HM, String.eqb_refl.
  unfold bind at 1. rewrite E0, HP.
  unfold bind at 1. unfold getConf. rewrite F0.
  fold (authorizedKeysHook (conf s)).
  destruct (authorizedKeysHook (conf s) (User msg)) as [authKeys|e];
    [|reflexivity].
  destruct (checkPublicKeyRegistration authKeys publicKey) as [[] [e|]];
    try reflexivity.
  congruence.
Qed.

Lemma fetchPrivateKey_conf c c' username :
  FetchPrivateKeyHook c' = FetchPrivateKeyHook c ->
  UseMasterKey c' = UseMasterKey c ->
  MasterKeyPath c' = MasterKeyPath c ->
  fetchPrivateKey c' username = fetchPrivateKey c username.
Proof.
  intros P U M. unfold fetchPrivateKey. rewrite P, U, M. reflexivity.
Qed.

(** A gated attempt whose re-signing fails: the call panics on the nil
    request pointer before any failure message is written. *)
Lemma handleAuthMsg_resign_failure msg s publicKey sig authKeys
    privateBytes signer err :
  parsePublicKeyMsg msg = Ok (publicKey, false, Some sig) ->
  authorizedKeysHook (conf s) (User msg) = Ok authKeys ->
  checkPublicKeyRegistration authKeys publicKey = (true, None) ->
  VerifySignature (conn s) msg publicKey (Some sig) = Returns (true, None) ->
  fetchPrivateKey (conf s) (ProxyUser (conn s)) = Ok privateBytes ->
  ParsePrivateKey privateBytes = Ok (Some signer) ->
  signAgain (conn s) (User msg) msg signer = Err err ->
  exists s0,
    handleAuthMsg msg s = (Panics "nil pointer dereference", s0)
    /\ conn s0 = conn s.
Proof.
  intros HP HA HC HV HF HK HS.
  pose proof (parsePublicKeyMsg_Method _ HP) as HM.
  destruct (defaultFetchAuthorizedKeysHook_spec s)
    as (s0 & E0 & C0 & F0 & P0 & U0 & M0).
  exists s0. split; [|exact C0].
  unfold handleAuthMsg. rewrite HM, String.eqb_refl.
  unfold bind at 1. rewrite E0, HP.
  unfold bind at 1. unfold getConf. rewrite F0.
  fold (authorizedKeysHook (conf s)). rewrite HA, HC.
  unfold bind at 1. unfold getConn.
  unfold bind at 1. unfold liftOutcome. rewrite C0, HV.
  rewrite (fetchPrivateKey_conf _ _ _ P0 U0 M0), HF, HK.
  simpl. unfold bind, getConn. rewrite C0, HS. reflexivity.
Qed.

End BridgeProperties.

(** * The claims *)

Section Claims.
Context `{lib : SSHLibrary} `{os : HostOS}.
Import Wire Codec.


(** C4.  Query short-circuit.  For a well-formed [publickey] request whose
    [has_sig] byte is zero, [handleAuthMsg] performs exactly one write, on
    the downstream connection, of the [USERAUTH_PK_OK] message carrying
    the key's algorithm name and marshaled blob; the upstream connection
    is left as it was; no request comes back for the bridge step, so the
    loop goes straight to the next-request phase. *)
Theorem query_short_circuit msg rest publicKey isQuery sig s fuel :
  Payload msg = x00 :: rest ->
  parsePublicKeyMsg msg = Ok (publicKey, isQuery, sig) ->
  let okMsg := Marshal_userAuthPubKeyOkMsg
                 {| Algo := PublicKey_Type publicKey;
                    PubKey := PublicKey_Marshal publicKey |} in
  let w := writePacket (Downstream (conn s)) okMsg in
  exists s1,
    handleAuthMsg msg s = (Returns (None, fst w), s1)
    /\ conn s1 = set_Downstream (conn s) (snd w)
    /\ outgoing (Downstream (conn s1))
       = outgoing (Downstream (conn s))
           ++ (if writeFails (Downstream (conn s)) then [] else [okMsg])
    /\ Upstream (conn s1) = Upstream (conn s)
    /\ bridgeStep msg s = (Returns (false, None), s1)
    /\ authLoop (S fuel) msg s
       = match nextRequest s1 with
         | (Returns (Ok userAuthReq), s2) => authLoop fuel userAuthReq s2
         | (Returns (Err err), s2) => (Returns (Some err), s2)
         | (Panics why, s2) => (Panics why, s2)
         | (Diverges, s2) => (Diverges, s2)
         end.
Proof.
  intros HP Hparse okMsg w.
  destruct (parsePublicKeyMsg_query _ HP Hparse) as [-> ->].
  destruct (handleAuthMsg_query msg s Hparse) as (s1 & E & C).
  fold okMsg in E, C. fold w in E, C.
  exists s1. split; [exact E|]. split; [exact C|].
  destruct (writePacket_spec (Downstream (conn s)) okMsg) as (_ & O & _).
  split; [rewrite C; exact O|]. split; [rewrite C; reflexivity|].
  assert (B : bridgeStep msg s = (Returns (false, None), s1)).
  { unfold bridgeStep, bind. rewrite E. reflexivity. }
  split; [exact B|].
  simpl. unfold bind at 1. rewrite B. unfold bind.
  destruct (nextRequest s1) as [[[req|err]|why|] s2]; reflexivity.
Qed.

(** C6.  Passthrough fidelity.  For a request whose method is not
    [publickey], [handleAuthMsg] returns the request itself and changes
    nothing, and the bridge step writes upstream exactly one packet, the
    marshaled request (nothing when that write fails). *)
Theorem passthrough_fidelity msg s out s' :
  Method msg <> "publickey" ->
  bridgeStep msg s = (out, s') ->
  handleAuthMsg msg s = (Returns (Some msg, None), s)
  /\ checkBridgeAuthWithNoBanner (Marshal_userAuthRequestMsg msg) s
     = (out, s')
  /\ outgoing (Upstream (conn s'))
     = outgoing (Upstream (conn s))
         ++ (if writeFails (Upstream (conn s)) then []
             else [Marshal_userAuthRequestMsg msg]).
Proof.
  intros HM HB.
  pose proof (handleAuthMsg_passthrough msg s HM) as HH.
  split; [exact HH|].
  unfold bridgeStep, bind in HB. rewrite HH in HB. simpl in HB.
  split; [exact HB|].
  apply checkBridgeAuthWithNoBanner_spec in HB. tauto.
Qed.

(** C8.  For a signed [publickey] attempt, when fetching the user's
    authorized keys fails, or the matcher does not answer [true] without
    error for the candidate key, [handleAuthMsg] returns the [none]
    request for that user without error and without writing anything (no
    failure goes downstream), and the bridge step then writes upstream
    the marshaled [none] request in place of the attempt. *)
Theorem unauthorized_key_sends_none msg s publicKey sig out s' :
  parsePublicKeyMsg msg = Ok (publicKey, false, sig) ->
  match authorizedKeysHook (conf s) (User msg) with
  | Err _ => True
  | Ok authKeys =>
      checkPublicKeyRegistration authKeys publicKey <> (true, None)
  end ->
  bridgeStep msg s = (out, s') ->
  Method (noneAuthMsg (User msg)) = "none"
  /\ User (noneAuthMsg (User msg)) = User msg
  /\ exists s0,
      handleAuthMsg msg s
        = (Returns (Some (noneAuthMsg (User msg)), None), s0)
      /\ conn s0 = conn s
      /\ checkBridgeAuthWithNoBanner
           (Marshal_userAuthRequestMsg (noneAuthMsg (User msg))) s0
         = (out, s')
      /\ outgoing (Upstream (conn s'))
         = outgoing (Upstream (conn s))
             ++ (if writeFails (Upstream (conn s)) then []
                 else [Marshal_userAuthRequestMsg (noneAuthMsg (User msg))]).
Proof.
  intros HP HA HB. split; [reflexivity|]. split; [reflexivity|].
  destruct (handleAuthMsg_unauthorized msg s HP HA) as (s0 & HH & C0 & K0).
  exists s0. split; [exact HH|]. split; [exact C0|].
  unfold bridgeStep, bind in HB. rewrite HH in HB. simpl in HB.
  split; [exact HB|].
  apply checkBridgeAuthWithNoBanner_spec in HB.
  destruct HB as (O & _). rewrite C0 in O. exact O.
Qed.

(** C9.  In the next-request phase a downstream packet whose first byte
    is not the [USERAUTH_REQUEST] number yields the error without being
    decoded, and nothing is written to either side.  Over a whole run of
    [AuthenticateProxyConn], such a packet is the last one consumed, the
    run returns that error, the requests handled are the initial one and
    those decoded from the packets before it, and the packets written
    upstream are the ones handed over for those requests. *)
Theorem non_request_packet_is_fatal init s out s' s1 o1 s1' :
  AuthenticateProxyConn init s = (out, s') ->
  nextRequest s1 = (o1, s1') ->
  (forall b body rest,
      incoming (Downstream (conn s1)) = (b :: body) :: rest ->
      b <> msgUserAuthRequest ->
      o1 = Returns (Err errNotAuthRequest)
      /\ incoming (Downstream (conn s1')) = rest
      /\ Upstream (conn s1') = Upstream (conn s1)
      /\ outgoing (Downstream (conn s1')) = outgoing (Downstream (conn s1)))
  /\ exists sent consumed,
      outgoing (Upstream (conn s'))
        = outgoing (Upstream (conn s))
            ++ (if writeFails (Upstream (conn s)) then []
                else [Marshal_serviceRequestMsg serviceUserAuth])
            ++ sent
      /\ incoming (Downstream (conn s))
         = consumed ++ incoming (Downstream (conn s'))
      /\ forall pre b body post,
           consumed = pre ++ (b :: body) :: post ->
           b <> msgUserAuthRequest ->
           post = []
           /\ out = Returns (Some errNotAuthRequest)
           /\ (forall req, Processed init consumed req ->
                           Processed init pre req)
           /\ Forall (Allowed s init pre) sent.
Proof.
  intros HA HN. split.
  - intros b body rest Hin Hb.
    destruct (nextRequest_spec _ HN) as (U & D & _ & R).
    rewrite Hin in R. destruct R as [R1 R2].
    destruct (Byte.eqb b msgUserAuthRequest) eqn:Eb.
    + apply Byte.byte_dec_bl in Eb. contradiction.
    + auto.
  - destruct (AuthenticateProxyConn_spec _ _ HA)
      as (_ & _ & sent & consumed & O & I & A & L).
    exists sent, consumed. split; [exact O|]. split; [exact I|].
    intros pre b body post E Hb.
    destruct (L _ _ _ _ E Hb) as [-> Hout].
    split; [reflexivity|]. split; [exact Hout|].
    assert (P : forall req, Processed init consumed req ->
                            Processed init pre req).
    { intros req [->|(packet & Hin & HU)]; [left; reflexivity|].
      right. exists packet. split; [|exact HU].
      rewrite E in Hin. apply in_app_or in Hin.
      destruct Hin as [Hin|[<-|[]]]; [exact Hin|].
      apply Unmarshal_userAuthRequestMsg_type in HU.
      destruct HU as [tl HU]. inversion HU; subst. contradiction. }
    split; [exact P|].
    eapply Forall_impl; [|exact A].
    intros pkt (r & m & Pr & Em & ->). exists r, m. auto.
Qed.

(** C10.  The relay loop and the next-request phase index the first byte
    of each packet they read without looking at its length.  When every
    pending packet is non-empty neither of them panics; an empty packet
    at the head of the upstream input (after a successful write of the
    request) or of the downstream input makes the index expression
    panic. *)
Theorem first_byte_needs_nonempty_packets packet s out s' o1 s1 :
  checkBridgeAuthWithNoBanner packet s = (out, s') ->
  nextRequest s = (o1, s1) ->
  (Forall (fun p => p <> []) (incoming (Upstream (conn s))) ->
   exists r, out = Returns r)
  /\ (Forall (fun p => p <> []) (incoming (Downstream (conn s))) ->
      exists r, o1 = Returns r)
  /\ (forall rest,
        writeFails (Upstream (conn s)) = false ->
        incoming (Upstream (conn s)) = [] :: rest ->
        out = Panics "index out of range [0] with length 0")
  /\ (forall rest,
        incoming (Downstream (conn s)) = [] :: rest ->
        o1 = Panics "index out of range [0] with length 0").
Proof.
  intros HB HN.
  split; [|split; [|split]].
  - intros HF.
    destruct (checkBridgeAuthWithNoBanner_spec _ _ HB) as (_ & _ & ND & NP).
    destruct out as [r|why|]; [eauto | | congruence].
    exfalso. exact (NP HF why eq_refl).
  - intros HF. destruct (nextRequest_spec _ HN) as (_ & _ & _ & R).
    destruct (incoming (Downstream (conn s))) as [|p rest];
      [destruct R as [-> _]; eauto|].
    destruct R as [_ R]. inversion HF; subst.
    destruct p as [|b body]; [congruence|].
    destruct (Byte.eqb b msgUserAuthRequest); subst; eauto.
  - intros rest HW Hin.
    unfold checkBridgeAuthWithNoBanner, bind in HB.
    destruct (Upstream_writePacket_spec packet s) as (s0 & E0 & C0 & F0).
    destruct (writePacket_spec (Upstream (conn s)) packet)
      as (W0 & _ & I0 & _).
    rewrite HW in W0. rewrite E0, W0 in HB.
    unfold relayFuel in HB. simpl in HB. unfold bind at 1 in HB.
    destruct (Upstream_readPacket_spec s0) as (s2 & E2 & C2 & F2).
    destruct (readPacket_spec (Upstream (conn s0))) as (_ & _ & _ & _ & R).
    assert (Hin0 : incoming (Upstream (conn s0)) = [] :: rest)
      by (rewrite C0; simpl; rewrite I0; exact Hin).
    rewrite Hin0 in R. destruct R as [R _].
    rewrite E2, R in HB. unfold bind, index0, panic in HB.
    inversion HB; reflexivity.
  - intros rest Hin. destruct (nextRequest_spec _ HN) as (_ & _ & _ & R).
    rewrite Hin in R. tauto.
Qed.

End Claims.

(** ** File permissions *)

Section FileProperties.
Context `{os : HostOS}.

(** [checkPermission] refuses exactly the existing files with a group or
    other permission bit set. *)
Lemma checkPermission_refuses file user f :
  fs (userSpecFile user file) = Some f ->
  (checkPermission file user <> None <-> N.land (mode f) 63 <> 0%N).
Proof.
  intros Hf. unfold checkPermission. rewrite Hf. unfold Perm.
  rewrite <- N.land_assoc. change (N.land 511 63) with 63%N.
  destruct (N.eqb_spec (N.land (mode f) 63) 0) as [E|E]; simpl.
  - rewrite E. split; congruence.
  - split; [intros _; exact E | discriminate].
Qed.

(** [userFile.read] returns the contents of an existing file whatever its
    permission bits: it never consults [checkPermission]. *)
Lemma userFile_read_ignores_mode file user f :
  fs (userSpecFile user file) = Some f ->
  userFile_read file user = Ok (contents f).
Proof.
  intros Hf. unfold userFile_read, ioutil_ReadFile. rewrite Hf. reflexivity.
Qed.

End FileProperties.

(** * The claims on concrete connections *)

Section Concrete.
Import Example Wire Codec.

(** C3.  Alice's [authorized_keys] and [id_rsa] have mode 0644.
    [checkPermission] would refuse both files, but nothing calls it: the
    home-directory readers return the contents of both, and Alice's signed
    attempt is accepted and re-signed with the private key read from the
    open file. *)
Theorem open_files_are_read :
  option_map mode (fs (userSpecFile "alice" userAuthorizedKeysFile))
    = Some 420%N
  /\ option_map mode (fs (userSpecFile "alice" userPrivateKeyFile))
     = Some 420%N
  /\ N.land 420 63 = 36%N
  /\ checkPermission userAuthorizedKeysFile "alice"
     = Some "/home/alice/.ssh/authorized_keys's perm is too open"
  /\ checkPermission userPrivateKeyFile "alice"
     = Some "/home/alice/.ssh/id_rsa's perm is too open"
  /\ fetchAuthorizedKeysFromHomeDir "alice" = Ok (aliceKey ++ [x0a])
  /\ fetchPrivateKeyFromHomeDir "alice" = Ok (x01 :: proxyKey)
  /\ exists m,
      fst (handleAuthMsg aliceAttempt (proxy "alice" [] []))
        = Returns (Some m, None)
      /\ Method m = "publickey"
      /\ signAgain (conn (proxy "alice" [] [])) "alice" aliceAttempt
           {| signer_key := proxyKey; signer_fails := false |} = Ok m.
Proof.
  repeat split; try reflexivity.
  eexists. split; [vm_compute; reflexivity|].
  split; vm_compute; reflexivity.
Qed.

(** C5.  Bob's signed attempt passes the gate, and the signer parsed from
    his private key fails to sign.  [handleAuthMsg] then panics on the nil
    request pointer: no [USERAUTH_FAILURE] is written downstream and the
    call does not return to the loop. *)
Theorem resign_failure_panics :
  Gate (proxy "bob" [] []) bobAttempt
  /\ fetchPrivateKey proxyConf "bob" = Ok (x00 :: proxyKey)
  /\ ParsePrivateKey (x00 :: proxyKey)
     = Ok (Some {| signer_key := proxyKey; signer_fails := true |})
  /\ signAgain (conn (proxy "bob" [] [])) "bob" bobAttempt
       {| signer_key := proxyKey; signer_fails := true |}
     = Err "ssh: signing failed"
  /\ fst (handleAuthMsg bobAttempt (proxy "bob" [] []))
     = Panics "nil pointer dereference"
  /\ outgoing (Downstream (conn (snd (handleAuthMsg bobAttempt
                                       (proxy "bob" [] []))))) = []
  /\ fst (AuthenticateProxyConn bobAttempt
            (proxy "bob" [serviceAccept] []))
     = Panics "nil pointer dereference".
Proof.
  split.
  - exists aliceKey.
    eexists. exists (aliceKey ++ [x0a]).
    split; [vm_compute; reflexivity|].
    repeat split; vm_compute; reflexivity.
  - repeat split; vm_compute; reflexivity.
Qed.

(** The matcher on concrete files: a later entry matches; a malformed
    entry (here an empty line) aborts the scan before the matching entry
    after it is reached, and does not matter after a match. *)
Example checkPublicKeyRegistration_examples :
  checkPublicKeyRegistration (proxyKey ++ [x0a] ++ aliceKey ++ [x0a]) aliceKey
    = (true, None)
  /\ checkPublicKeyRegistration (proxyKey ++ [x0a]) aliceKey = (false, None)
  /\ checkPublicKeyRegistration (proxyKey ++ [x0a; x0a] ++ aliceKey) aliceKey
     = (false, Some "ssh: no key found")
  /\ checkPublicKeyRegistration (aliceKey ++ [x0a; x0a] ++ proxyKey) aliceKey
     = (true, None)
  /\ parsedEntries (proxyKey ++ [x0a; x0a] ++ aliceKey)
     = ([proxyKey], Some "ssh: no key found").
Proof. repeat split; vm_compute; reflexivity. Qed.

(** Session binding on concrete connections: an attempt signed over the
    downstream session identifier verifies, the same attempt signed over
    the upstream one does not; the request [signAgain] builds carries a
    signature over the upstream identifier. *)
Example session_binding_examples :
  let p := conn (proxy "alice" [] []) in
  let signer := {| signer_key := proxyKey; signer_fails := false |} in
  let data := fun sid =>
    buildDataSignedForAuth sid
      {| User := "alice"; Service := serviceSSH; Method := "publickey";
         Payload := [] |} (list_byte_of_string algo) in
  VerifySignature p (signedBy downSID "alice" aliceKey) aliceKey
    (Some {| Format := algo; Blob := aliceKey ++ data downSID aliceKey |})
    = Returns (true, None)
  /\ VerifySignature p (signedBy upSID "alice" aliceKey) aliceKey
       (Some {| Format := algo; Blob := aliceKey ++ data upSID aliceKey |})
     = Returns (false, None)
  /\ signAgain p "alice" aliceAttempt signer
     = Ok {| User := "alice"; Service := serviceSSH; Method := "publickey";
             Payload :=
               x01 :: str algo ++ marshalString proxyKey
                 ++ marshalString
                      (Marshal_Signature
                         {| Format := algo;
                            Blob := proxyKey ++ data upSID proxyKey |}) |}.
Proof. repeat split; vm_compute; reflexivity. Qed.


Lemma query_short_circuit_witness :
  let msg := query "alice" aliceKey in
  let s := proxy "alice" [] [aliceAttempt_packet] in
  let okMsg := Marshal_userAuthPubKeyOkMsg
                 {| Algo := PublicKey_Type aliceKey;
                    PubKey := PublicKey_Marshal aliceKey |} in
  Payload msg = x00 :: Wire.str algo ++ Wire.marshalString aliceKey
  /\ parsePublicKeyMsg msg = Ok (aliceKey, true, None)
  /\ exists s1,
      handleAuthMsg msg s = (Returns (None, None), s1)
      /\ outgoing (Downstream (conn s1)) = [okMsg]
      /\ Upstream (conn s1) = Upstream (conn s)
      /\ bridgeStep msg s = (Returns (false, None), s1).
Proof.
  intros msg s okMsg.
  assert (H1 : Payload msg
               = x00 :: Wire.str algo ++ Wire.marshalString aliceKey)
    by reflexivity.
  assert (H2 : parsePublicKeyMsg msg = Ok (aliceKey, true, None))
    by (vm_compute; reflexivity).
  split; [exact H1|]. split; [exact H2|].
  destruct (query_short_circuit msg s 1 H1 H2)
    as (s1 & A & B & C & D & E & _).
  exists s1. split; [exact A|]. split; [exact C|]. split; [exact D|].
  exact E.
Defined.

Lemma passthrough_fidelity_witness :
  let msg := password "alice" "secret" in
  let s := proxy "alice" [[msgUserAuthFailure]] [] in
  let b := bridgeStep msg s in
  Method msg <> "publickey"
  /\ bridgeStep msg s = (fst b, snd b)
  /\ handleAuthMsg msg s = (Returns (Some msg, None), s)
  /\ outgoing (Upstream (conn (snd b))) = [Marshal_userAuthRequestMsg msg].
Proof.
  intros msg s b.
  assert (H1 : Method msg <> "publickey") by (vm_compute; discriminate).
  assert (H2 : bridgeStep msg s = (fst b, snd b))
    by (vm_compute; reflexivity).
  split; [exact H1|]. split; [exact H2|].
  destruct (passthrough_fidelity msg s H1 H2) as (A & _ & C).
  split; [exact A | exact C].
Defined.

Lemma unauthorized_key_sends_none_witness :
  let msg := strangerAttempt in
  let s := proxy "alice" [[msgUserAuthFailure]] [] in
  let b := bridgeStep msg s in
  (exists sig, parsePublicKeyMsg msg = Ok (proxyKey, false, Some sig))
  /\ match authorizedKeysHook (conf s) (User msg) with
     | Err _ => True
     | Ok authKeys =>
         checkPublicKeyRegistration authKeys proxyKey <> (true, None)
     end
  /\ bridgeStep msg s = (fst b, snd b)
  /\ outgoing (Upstream (conn (snd b)))
     = [Marshal_userAuthRequestMsg (noneAuthMsg "alice")]
  /\ outgoing (Downstream (conn (snd b))) = [[msgUserAuthFailure]].
Proof.
  intros msg s b.
  destruct (parsePublicKeyMsg msg) as [[[k q] [sig|]]|e] eqn:HP;
    try (vm_compute in HP; discriminate).
  assert (Hk : k = proxyKey /\ q = false)
    by (vm_compute in HP; inversion HP; split; reflexivity).
  destruct Hk as [-> ->].
  assert (H2 : match authorizedKeysHook (conf s) (User msg) with
               | Err _ => True
               | Ok authKeys =>
                   checkPublicKeyRegistration authKeys proxyKey
                   <> (true, None)
               end) by (vm_compute; discriminate).
  assert (H3 : bridgeStep msg s = (fst b, snd b))
    by (vm_compute; reflexivity).
  split; [exists sig; reflexivity|]. split; [exact H2|]. split; [exact H3|].
  destruct (@unauthorized_key_sends_none library host msg s _ _
              (fst b) (snd b) HP H2 H3)
    as (_ & _ & s0 & _ & _ & _ & O).
  split; [exact O|]. vm_compute. reflexivity.
Defined.

Lemma non_request_packet_is_fatal_witness :
  let init := password "alice" "secret" in
  let channelOpen := [x5a] in
  let s := proxy "alice" [serviceAccept; [msgUserAuthFailure]]
             [channelOpen] in
  let s1 := proxy "alice" [] [channelOpen] in
  let a := AuthenticateProxyConn init s in
  let n := nextRequest s1 in
  AuthenticateProxyConn init s = (fst a, snd a)
  /\ nextRequest s1 = (fst n, snd n)
  /\ fst n = Returns (Err errNotAuthRequest)
  /\ Upstream (conn (snd n)) = Upstream (conn s1)
  /\ fst a = Returns (Some errNotAuthRequest).
Proof.
  intros init channelOpen s s1 a n.
  assert (H1 : AuthenticateProxyConn init s = (fst a, snd a))
    by (vm_compute; reflexivity).
  assert (H2 : nextRequest s1 = (fst n, snd n))
    by (vm_compute; reflexivity).
  split; [exact H1|]. split; [exact H2|].
  destruct (@non_request_packet_is_fatal library host init s (fst a) (snd a)
              s1 (fst n) (snd n) H1 H2) as (L & sent & consumed & _ & I & G).
  assert (Hb : x5a <> msgUserAuthRequest) by discriminate.
  destruct (L x5a [] [] eq_refl Hb) as (A & _ & B & _).
  split; [exact A|]. split; [exact B|].
  assert (Hc : consumed = [] ++ [x5a] :: []).
  { change (incoming (Downstream (conn s))) with [channelOpen] in I.
    change (incoming (Downstream (conn (snd a)))) with (@nil bytes) in I.
    rewrite app_nil_r in I. symmetry. exact I. }
  destruct (G [] x5a [] [] Hc Hb) as (_ & Hout & _). exact Hout.
Defined.

Lemma first_byte_needs_nonempty_packets_witness :
  let packet := aliceAttempt_packet in
  let s := proxy "alice" [[msgUserAuthBanner]; [msgUserAuthSuccess]]
             [aliceAttempt_packet] in
  let c := checkBridgeAuthWithNoBanner packet s in
  let n := nextRequest s in
  checkBridgeAuthWithNoBanner packet s = (fst c, snd c)
  /\ nextRequest s = (fst n, snd n)
  /\ Forall (fun p => p <> []) (incoming (Upstream (conn s)))
  /\ Forall (fun p => p <> []) (incoming (Downstream (conn s)))
  /\ (exists r, fst c = Returns r)
  /\ (exists r, fst n = Returns r).
Proof.
  intros packet s c n.
  assert (H1 : checkBridgeAuthWithNoBanner packet s = (fst c, snd c))
    by (vm_compute; reflexivity).
  assert (H2 : nextRequest s = (fst n, snd n))
    by (vm_compute; reflexivity).
  assert (F1 : Forall (fun p : bytes => p <> [])
                 (incoming (Upstream (conn s))))
    by (repeat constructor; discriminate).
  assert (F2 : Forall (fun p : bytes => p <> [])
                 (incoming (Downstream (conn s))))
    by (repeat constructor; discriminate).
  split; [exact H1|]. split; [exact H2|].
  split; [exact F1|]. split; [exact F2|].
  destruct (@first_byte_needs_nonempty_packets library host packet s
              (fst c) (snd c) (fst n) (snd n) H1 H2) as (A & B & _).
  split; [exact (A F1) | exact (B F2)].
Defined.

End Concrete.

(** * More of the bridge *)

(** ** Round trips of the wire encoding *)

Section WireRoundTrip.
Import Wire Codec.

Lemma byte_of_N_to_N b : byte_of_N (Byte.to_N b) = b.
Proof.
  unfold byte_of_N. pose proof (Byte.to_N_bounded b) as B.
  rewrite N.mod_small by lia. rewrite Byte.of_to_N. reflexivity.
Qed.

Lemma uint32_bound b0 b1 b2 b3 : (uint32 b0 b1 b2 b3 < 4294967296)%N.
Proof.
  unfold uint32.
  pose proof (Byte.to_N_bounded b0). pose proof (Byte.to_N_bounded b1).
  pose proof (Byte.to_N_bounded b2). pose proof (Byte.to_N_bounded b3).
  lia.
Qed.

Lemma putUint32_uint32 b0 b1 b2 b3 :
  putUint32 (uint32 b0 b1 b2 b3) = [b0; b1; b2; b3].
Proof.
  pose proof (Byte.to_N_bounded b0). pose proof (Byte.to_N_bounded b1).
  pose proof (Byte.to_N_bounded b2). pose proof (Byte.to_N_bounded b3).
  set (n := uint32 b0 b1 b2 b3).
  assert (E0 : ((n / 16777216) mod 256 = Byte.to_N b0)%N)
    by (subst n; unfold uint32; zify; Z.to_euclidean_division_equations; lia).
  assert (E1 : ((n / 65536) mod 256 = Byte.to_N b1)%N)
    by (subst n; unfold uint32; zify; Z.to_euclidean_division_equations; lia).
  assert (E2 : ((n / 256) mod 256 = Byte.to_N b2)%N)
    by (subst n; unfold uint32; zify; Z.to_euclidean_division_equations; lia).
  assert (E3 : (n mod 256 = Byte.to_N b3)%N)
    by (subst n; unfold uint32; zify; Z.to_euclidean_division_equations; lia).
  unfold putUint32, byte_of_N. rewrite E0, E1, E2, E3, !Byte.of_to_N.
  reflexivity.
Qed.

(** What [parseString] accepts is a length-prefixed string followed by the
    rest it returns. *)
Lemma parseString_inv input out rest :
  parseString input = Some (out, rest) ->
  input = marshalString out ++ rest.
Proof.
  unfold parseString.
  destruct input as [|b0 [|b1 [|b2 [|b3 tail]]]]; try discriminate.
  destruct (Nat.ltb_spec (List.length tail) (N.to_nat (uint32 b0 b1 b2 b3)))
    as [L|L]; [discriminate|].
  intros E. inversion E; subst. unfold marshalString, len.
  rewrite length_firstn, Nat.min_l by exact L. rewrite N2Nat.id.
  rewrite N.mod_small by apply uint32_bound.
  rewrite putUint32_uint32. simpl. rewrite firstn_skipn. reflexivity.
Qed.

Lemma parseString_marshalString out rest :
  (len out < 4294967296)%N ->
  parseString (marshalString out ++ rest) = Some (out, rest).
Proof.
  intros L. unfold marshalString. rewrite N.mod_small by exact L.
  pose proof (uint32_putUint32 L) as U. unfold putUint32 in *. simpl.
  rewrite U. unfold len. rewrite Nat2N.id.
  destruct (Nat.ltb_spec (List.length (out ++ rest)) (List.length out))
    as [H|H]; [rewrite length_app in H; lia|].
  rewrite firstn_app, Nat.sub_diag, firstn_all, skipn_app, Nat.sub_diag,
    skipn_all. simpl. rewrite app_nil_r. reflexivity.
Qed.

(** Marshaling what [Unmarshal] decoded gives the packet back. *)
Lemma Marshal_Unmarshal_userAuthRequestMsg packet m :
  Unmarshal_userAuthRequestMsg packet = Ok m ->
  Marshal_userAuthRequestMsg m = packet.
Proof.
  unfold Unmarshal_userAuthRequestMsg.
  destruct packet as [|t data]; [discriminate|].
  destruct (Byte.eqb t msgUserAuthRequest) eqn:Et; [|discriminate].
  apply Byte.byte_dec_bl in Et. subst t.
  destruct (parseString data) as [[u d1]|] eqn:E1; [|discriminate].
  destruct (parseString d1) as [[sv d2]|] eqn:E2; [|discriminate].
  destruct (parseString d2) as [[me d3]|] eqn:E3; [|discriminate].
  intros E. inversion E; subst. clear E.
  apply parseString_inv in E1, E2, E3. subst.
  unfold Marshal_userAuthRequestMsg, str. simpl.
  rewrite !list_byte_of_string_of_list_byte. reflexivity.
Qed.

Lemma Unmarshal_Marshal_userAuthRequestMsg m :
  fits m ->
  Unmarshal_userAuthRequestMsg (Marshal_userAuthRequestMsg m) = Ok m.
Proof.
  intros (U & S & M). unfold Unmarshal_userAuthRequestMsg,
    Marshal_userAuthRequestMsg, str.
  change (Byte.eqb msgUserAuthRequest msgUserAuthRequest) with true.
  cbv iota. rewrite !parseString_marshalString by assumption.
  rewrite !string_of_list_byte_of_string. destruct m; reflexivity.
Qed.

End WireRoundTrip.

(** ** The relay, the forwarder and the first request *)

Section Relay.
Context `{lib : SSHLibrary} `{os : HostOS}.
Import Wire Codec.

(** The relay loop read packet by packet: the packets read are a prefix of
    the upstream input, the packets forwarded are written downstream in
    the order read, and a result without error means banners followed by
    one last packet that is not a banner. *)
Lemma relayUpstream_trace fuel : forall s out s',
  relayUpstream fuel s = (out, s') ->
  exists consumed forwarded,
    incoming (Upstream (conn s)) = consumed ++ incoming (Upstream (conn s'))
    /\ outgoing (Downstream (conn s'))
       = outgoing (Downstream (conn s)) ++ forwarded
    /\ (exists unsent, consumed = forwarded ++ unsent)
    /\ forall ok,
         out = Returns (ok, None) ->
         exists banners t body,
           consumed = banners ++ [t :: body]
           /\ forwarded = consumed
           /\ Forall (fun p => exists b, p = msgUserAuthBanner :: b) banners
           /\ t <> msgUserAuthBanner
           /\ (ok = true <-> t = msgUserAuthSuccess).
Proof.
  induction fuel as [|fuel IH]; intros s out s' H; simpl in H.
  - unfold diverge in H. inversion H; subst. exists [], [].
    rewrite app_nil_r. repeat split; trivial; try (exists []; reflexivity).
    intros ok E. discriminate.
  - unfold bind at 1 in H.
    destruct (Upstream_readPacket_spec s) as (s1 & E1 & C1 & F1).
    destruct (readPacket_spec (Upstream (conn s))) as (_ & _ & _ & _ & R1).
    rewrite E1 in H.
    assert (D1 : Downstream (conn s1) = Downstream (conn s))
      by (rewrite C1; reflexivity).
    destruct (incoming (Upstream (conn s))) as [|packet rest] eqn:In1.
    + rewrite R1 in H. simpl in H. unfold ret in H. inversion H; subst.
      exists [], []. rewrite app_nil_r, D1.
      split; [rewrite C1; simpl; rewrite R1; simpl; symmetry; exact In1|].
      split; [reflexivity|]. split; [exists []; reflexivity|].
      intros ok E. discriminate.
    + destruct R1 as [R1 R2]. rewrite R1 in H.
      assert (I1 : incoming (Upstream (conn s1)) = rest)
        by (rewrite C1; exact R2).
      unfold bind at 1 in H.
      destruct packet as [|msgType body].
      * simpl in H. unfold panic in H. inversion H; subst.
        exists [[]], []. rewrite app_nil_r, D1, I1.
        split; [reflexivity|]. split; [reflexivity|].
        split; [exists [[]]; reflexivity|]. intros ok E. discriminate.
      * simpl in H. unfold ret at 1 in H. unfold bind at 1 in H.
        destruct (Downstream_writePacket_spec (msgType :: body) s1)
          as (s2 & E2 & C2 & F2).
        destruct (writePacket_spec (Downstream (conn s1)) (msgType :: body))
          as (W2 & O2 & _).
        rewrite E2 in H.
        assert (I2 : incoming (Upstream (conn s2)) = rest)
          by (rewrite C2; exact I1).
        assert (D2 : outgoing (Downstream (conn s2))
                     = outgoing (Downstream (conn s))
                         ++ (if writeFails (Downstream (conn s1)) then []
                             else [msgType :: body]))
          by (rewrite C2; simpl; rewrite O2, D1; reflexivity).
        rewrite W2 in H.
        destruct (writeFails (Downstream (conn s1))).
        { unfold ret in H. inversion H; subst.
          exists [msgType :: body], []. rewrite I2.
          split; [reflexivity|]. split; [exact D2|].
          split; [exists [msgType :: body]; reflexivity|].
          intros ok E. discriminate. }
        assert (Done : forall ok,
                  (ok = true <-> msgType = msgUserAuthSuccess) ->
                  msgType <> msgUserAuthBanner ->
                  (out, s') = (Returns (ok, None), s2) ->
                  exists consumed forwarded,
                    (msgType :: body) :: rest
                      = consumed ++ incoming (Upstream (conn s'))
                    /\ outgoing (Downstream (conn s'))
                       = outgoing (Downstream (conn s)) ++ forwarded
                    /\ (exists unsent, consumed = forwarded ++ unsent)
                    /\ forall ok0,
                         out = Returns (ok0, None) ->
                         exists banners t body0,
                           consumed = banners ++ [t :: body0]
                           /\ forwarded = consumed
                           /\ Forall
                                (fun p => exists b,
                                   p = msgUserAuthBanner :: b) banners
                           /\ t <> msgUserAuthBanner
                           /\ (ok0 = true <-> t = msgUserAuthSuccess)).
        { intros ok Hok Hnb E. inversion E; subst.
          exists [msgType :: body], [msgType :: body]. rewrite I2.
          split; [reflexivity|]. split; [exact D2|].
          split; [exists []; rewrite app_nil_r; reflexivity|].
          intros ok0 E0. inversion E0; subst.
          exists [], msgType, body. repeat split; trivial; apply Hok. }
        destruct (Byte.eqb msgType msgUserAuthSuccess) eqn:Es.
        { apply Byte.byte_dec_bl in Es. unfold ret in H.
          eapply Done; [| |symmetry; exact H].
          - split; trivial.
          - subst msgType. discriminate. }
        destruct (Byte.eqb msgType msgUserAuthBanner) eqn:Eb.
        2:{ unfold ret in H. eapply Done; [| |symmetry; exact H].
            - split; [discriminate|]. intros ->. discriminate.
            - intros ->. discriminate. }
        apply Byte.byte_dec_bl in Eb. subst msgType.
        apply IH in H.
        destruct H as (consumed & forwarded & A & B & (unsent & C) & D).
        exists ((msgUserAuthBanner :: body) :: consumed),
               ((msgUserAuthBanner :: body) :: forwarded).
        split; [simpl; rewrite <- A, I2; reflexivity|].
        split; [rewrite B, D2, <- app_assoc; reflexivity|].
        split; [exists unsent; simpl; rewrite C; reflexivity|].
        intros ok E. destruct (D ok E) as (banners & t & b0 & P & Q & R & T).
        exists ((msgUserAuthBanner :: body) :: banners), t, b0.
        split; [simpl; rewrite P; reflexivity|].
        split; [rewrite Q; reflexivity|].
        split; [constructor; [exists body; reflexivity | exact R]|].
        exact T.
Qed.

Lemma checkBridgeAuthWithNoBanner_trace packet s out s' :
  checkBridgeAuthWithNoBanner packet s = (out, s') ->
  exists consumed forwarded unsent,
    incoming (Upstream (conn s)) = consumed ++ incoming (Upstream (conn s'))
    /\ consumed = forwarded ++ unsent
    /\ outgoing (Downstream (conn s'))
       = outgoing (Downstream (conn s)) ++ forwarded
    /\ forall ok,
         out = Returns (ok, None) ->
         exists banners t body,
           consumed = banners ++ [t :: body]
           /\ unsent = []
           /\ Forall (fun p => exists b, p = msgUserAuthBanner :: b) banners
           /\ t <> msgUserAuthBanner
           /\ (ok = true <-> t = msgUserAuthSuccess)
           /\ outgoing (Upstream (conn s'))
              = outgoing (Upstream (conn s)) ++ [packet].
Proof.
  intros H.
  pose proof (checkBridgeAuthWithNoBanner_spec _ _ H) as (OU & _).
  unfold checkBridgeAuthWithNoBanner, bind in H.
  destruct (Upstream_writePacket_spec packet s) as (s1 & E1 & C1 & F1).
  destruct (writePacket_spec (Upstream (conn s)) packet)
    as (W1 & _ & I1 & _).
  rewrite E1, W1 in H.
  destruct (writeFails (Upstream (conn s))) eqn:WF.
  - unfold ret in H. inversion H; subst. exists [], [], [].
    rewrite C1. simpl. rewrite I1, app_nil_r. repeat split; trivial.
    intros ok E. discriminate.
  - apply relayUpstream_trace in H.
    destruct H as (consumed & forwarded & A & B & (unsent & C) & D).
    exists consumed, forwarded, unsent.
    rewrite C1 in A, B. simpl in A, B. rewrite I1 in A.
    split; [exact A|]. split; [exact C|]. split; [exact B|].
    intros ok E. destruct (D ok E) as (banners & t & body & P & Q & R & T & U).
    exists banners, t, body. split; [exact P|]. split.
    + rewrite Q in C. rewrite <- (app_nil_r consumed) in C at 1.
      apply app_inv_head in C. symmetry. exact C.
    + repeat split; trivial; apply U.
Qed.

(** X1.  Whatever its outcome, [checkBridgeAuthWithNoBanner] forwards to
    the downstream, verbatim and in the order read, a prefix of the
    upstream packets it consumed, and nothing else.  When it returns
    without error, it consumed a run of banners followed by one packet
    that is not a banner, forwarded all of them, wrote the request
    upstream, and answers [true] exactly when that last packet is a
    [USERAUTH_SUCCESS]. *)
Theorem relay_forwards_in_order packet s out s' :
  checkBridgeAuthWithNoBanner packet s = (out, s') ->
  exists consumed forwarded unsent,
    incoming (Upstream (conn s)) = consumed ++ incoming (Upstream (conn s'))
    /\ consumed = forwarded ++ unsent
    /\ outgoing (Downstream (conn s'))
       = outgoing (Downstream (conn s)) ++ forwarded
    /\ forall ok,
         out = Returns (ok, None) ->
         exists banners t body,
           consumed = banners ++ [t :: body]
           /\ unsent = []
           /\ Forall (fun p => exists b, p = msgUserAuthBanner :: b) banners
           /\ t <> msgUserAuthBanner
           /\ (ok = true <-> t = msgUserAuthSuccess)
           /\ outgoing (Upstream (conn s'))
              = outgoing (Upstream (conn s)) ++ [packet].
Proof. apply checkBridgeAuthWithNoBanner_trace. Qed.

Lemma relayUpstream_error_false fuel : forall st o st',
  relayUpstream fuel st = (o, st') ->
  forall ok err, o = Returns (ok, Some err) -> ok = false.
Proof.
  induction fuel as [|fuel IH]; intros st o st' H ok err E; simpl in H.
  - unfold diverge in H. inversion H; subst. congruence.
  - unfold bind at 1 in H.
    destruct (Upstream_readPacket st) as [[[pkt|e]|why|] st1];
      unfold ret in H; try (inversion H; subst; congruence).
    unfold bind at 1 in H.
    destruct pkt as [|t body]; simpl in H.
    + unfold panic in H. inversion H; subst. congruence.
    + unfold bind at 1 in H.
      destruct (Downstream_writePacket (t :: body) st1)
        as [[[e|]|why|] st2];
        try (inversion H; subst; congruence).
      destruct (Byte.eqb t msgUserAuthSuccess);
        [inversion H; subst; congruence|].
      destruct (Byte.eqb t msgUserAuthBanner);
        [eapply IH; eassumption | inversion H; subst; congruence].
Qed.

Lemma checkBridgeAuthWithNoBanner_error_false packet s out s' :
  checkBridgeAuthWithNoBanner packet s = (out, s') ->
  forall ok err, out = Returns (ok, Some err) -> ok = false.
Proof.
  unfold checkBridgeAuthWithNoBanner, bind. intros H.
  destruct (Upstream_writePacket packet s) as [[[e|]|why|] s1];
    unfold ret in H; try (inversion H; subst; congruence).
  eapply relayUpstream_error_false. exact H.
Qed.

(** X2.  Every error return of [checkBridgeAuthWithNoBanner] answers
    [false]; and when the write of the request fails it returns at once,
    without reading upstream or writing downstream. *)
Theorem relay_errors_answer_false packet s out s' :
  checkBridgeAuthWithNoBanner packet s = (out, s') ->
  (forall ok err, out = Returns (ok, Some err) -> ok = false)
  /\ (writeFails (Upstream (conn s)) = true ->
      out = Returns (false, Some "write: broken pipe")
      /\ incoming (Upstream (conn s')) = incoming (Upstream (conn s))
      /\ outgoing (Upstream (conn s')) = outgoing (Upstream (conn s))
      /\ Downstream (conn s') = Downstream (conn s)).
Proof.
  intros H.
  pose proof (checkBridgeAuthWithNoBanner_spec _ _ H) as (OU & _).
  unfold checkBridgeAuthWithNoBanner, bind in H.
  destruct (Upstream_writePacket_spec packet s) as (s1 & E1 & C1 & F1).
  destruct (writePacket_spec (Upstream (conn s)) packet)
    as (W1 & _ & I1 & _).
  rewrite E1, W1 in H.
  destruct (writeFails (Upstream (conn s))) eqn:WF.
  - unfold ret in H. inversion H; subst. split.
    + intros ok err E. inversion E; reflexivity.
    + intros _. rewrite app_nil_r in OU. rewrite C1. simpl.
      rewrite C1 in OU. simpl in OU. repeat split; trivial.
  - split; [|discriminate].
    eapply relayUpstream_error_false. exact H.
Qed.

Lemma piping_loop_trace fuel : forall dst src out dst' src',
  piping_loop fuel dst src = (out, (dst', src')) ->
  List.length (incoming src) < fuel ->
  incoming dst' = incoming dst
  /\ outgoing src' = outgoing src
  /\ exists copied,
      outgoing dst' = outgoing dst ++ copied
      /\ ((out = Returns "EOF"
           /\ incoming src = copied /\ incoming src' = [])
          \/ (exists p,
                out = Returns "write: broken pipe"
                /\ incoming src = copied ++ p :: incoming src')).
Proof.
  induction fuel as [|fuel IH]; intros dst src out dst' src' H L;
    [lia|]. simpl in H.
  destruct (readPacket_spec src) as (O1 & _ & _ & _ & R1).
  destruct (readPacket src) as [r src1] eqn:ER. simpl in O1, R1.
  destruct (incoming src) as [|p rest] eqn:Ein.
  - inversion R1; subst. inversion H; subst.
    repeat split; trivial. exists []. rewrite app_nil_r. split; trivial.
    left. auto.
  - destruct R1 as [-> R2].
    destruct (writePacket_spec dst p) as (W & O & I & _).
    destruct (writePacket dst p) as [e dst1] eqn:EW. simpl in W, O, I.
    destruct (writeFails dst); subst e.
    + inversion H; subst. rewrite app_nil_r in O.
      split; [exact I|]. split; [exact O1|]. exists [].
      rewrite app_nil_r. split; [exact O|]. right. exists p.
      split; [reflexivity|]. reflexivity.
    + apply IH in H; [|rewrite R2; simpl in L; lia].
      destruct H as (A & B & copied & C & D).
      split; [congruence|]. split; [congruence|].
      exists (p :: copied). split; [rewrite C, O, <- app_assoc; reflexivity|].
      rewrite R2 in D.
      destruct D as [(D1 & D2 & D3)|(q & D1 & D2)].
      * left. subst. auto.
      * right. exists q. split; [exact D1|]. simpl. rewrite D2. reflexivity.
Qed.

(** X3.  [piping] copies the packets of [src] to [dst] verbatim and in
    order and leaves the other sides of both connections alone.  It ends
    only with an error: the end of the input after every packet was
    copied, or a failed write, in which case the packets before the one
    being written were copied and that one is lost. *)
Theorem piping_copies_in_order dst src out dst' src' :
  piping dst src = (out, (dst', src')) ->
  incoming dst' = incoming dst
  /\ outgoing src' = outgoing src
  /\ exists copied,
      outgoing dst' = outgoing dst ++ copied
      /\ ((out = Returns "EOF"
           /\ incoming src = copied /\ incoming src' = [])
          \/ (exists p,
                out = Returns "write: broken pipe"
                /\ incoming src = copied ++ p :: incoming src')).
Proof.
  unfold piping. intros H. eapply piping_loop_trace; [exact H | lia].
Qed.

Lemma signAgain_unfolded p user msg signer :
  (len (list_byte_of_string user) < 4294967296)%N ->
  let key := Signer_PublicKey signer in
  signAgain p user msg signer =
  match Signer_Sign signer (configRand (Upstream p))
          (buildDataSignedForAuth (getSessionID (Upstream p))
             {| User := user; Service := serviceSSH;
                Method := "publickey"; Payload := [] |}
             (list_byte_of_string (PublicKey_Type key))
             (PublicKey_Marshal key)) with
  | Err err => Err err
  | Ok sign =>
      Ok {| User := user; Service := serviceSSH; Method := "publickey";
            Payload :=
              x01 :: str (PublicKey_Type key)
                ++ marshalString (PublicKey_Marshal key)
                ++ marshalString (Marshal_Signature sign) |}
  end.
Proof.
  intros L key. unfold signAgain. fold key.
  destruct (Signer_Sign signer (configRand (Upstream p)) _) as [sign|err];
    [|reflexivity].
  unfold Unmarshal_userAuthRequestMsg, Marshal_publickeyAuthMsg, str.
  cbn [pk_User pk_Service pk_Method pk_HasSig pk_Algoname pk_PubKey pk_Sig].
  change (Byte.eqb msgUserAuthRequest msgUserAuthRequest) with true.
  cbv iota.
  rewrite parseString_marshalString by exact L.
  rewrite parseString_marshalString by reflexivity.
  rewrite parseString_marshalString by reflexivity.
  rewrite !string_of_list_byte_of_string. reflexivity.
Qed.

(** X4.  For a user name that fits its length prefix, [signAgain] fails
    exactly when the signer fails, with the signer's error; otherwise it
    returns a request for that user and the service [ssh-connection] with
    method [publickey], whose payload is the signature flag, the type and
    the blob of the signer's public key and the marshaled signature.  The
    request it is given does not matter. *)
Theorem signAgain_request p user msg signer :
  (len (list_byte_of_string user) < 4294967296)%N ->
  let key := Signer_PublicKey signer in
  signAgain p user msg signer =
  match Signer_Sign signer (configRand (Upstream p))
          (buildDataSignedForAuth (getSessionID (Upstream p))
             {| User := user; Service := serviceSSH;
                Method := "publickey"; Payload := [] |}
             (list_byte_of_string (PublicKey_Type key))
             (PublicKey_Marshal key)) with
  | Err err => Err err
  | Ok sign =>
      Ok {| User := user; Service := serviceSSH; Method := "publickey";
            Payload :=
              x01 :: str (PublicKey_Type key)
                ++ marshalString (PublicKey_Marshal key)
                ++ marshalString (Marshal_Signature sign) |}
  end.
Proof. apply signAgain_unfolded. Qed.

(** X5.  The request [signAgain] builds is a well-formed signed attempt:
    when the key's type is an accepted algorithm, the blob parses back to
    a key and the lengths fit their prefixes, [parsePublicKeyMsg] decodes
    it to that key, not a query, with the signature the signer made. *)
Theorem signAgain_parses_back p user msg signer sign key' :
  let key := Signer_PublicKey signer in
  (len (list_byte_of_string user) < 4294967296)%N ->
  (len (list_byte_of_string (PublicKey_Type key)) < 4294967296)%N ->
  (len (PublicKey_Marshal key) < 4294967296)%N ->
  (len (list_byte_of_string (Format sign)) < 4294967296)%N ->
  (len (Blob sign) < 4294967296)%N ->
  (len (Marshal_Signature sign) < 4294967296)%N ->
  isAcceptableAlgo (PublicKey_Type key) = true ->
  ParsePublicKey (PublicKey_Marshal key) = Ok key' ->
  Signer_Sign signer (configRand (Upstream p))
    (buildDataSignedForAuth (getSessionID (Upstream p))
       {| User := user; Service := serviceSSH;
          Method := "publickey"; Payload := [] |}
       (list_byte_of_string (PublicKey_Type key))
       (PublicKey_Marshal key)) = Ok sign ->
  exists m,
    signAgain p user msg signer = Ok m
    /\ parsePublicKeyMsg m = Ok (key', false, Some sign).
Proof.
  intros key LU LT LK LF LB LS HA HP HS.
  pose proof (signAgain_unfolded p user msg signer LU) as E.
  cbv zeta in E. fold key in E. rewrite HS in E.
  eexists. split; [exact E|].
  unfold parsePublicKeyMsg. cbn [Method Payload].
  change (negb (String.eqb "publickey" "publickey")) with false. cbv iota.
  change (Byte.eqb x01 x00) with false.
  unfold str. rewrite parseString_marshalString by exact LT.
  rewrite string_of_list_byte_of_string, HA. cbn [negb].
  rewrite parseString_marshalString by exact LK. rewrite HP.
  unfold parseSignature.
  rewrite <- (app_nil_r (marshalString (Marshal_Signature sign))).
  rewrite parseString_marshalString by exact LS.
  unfold parseSignatureBody, Marshal_Signature, str.
  rewrite parseString_marshalString by exact LF.
  rewrite <- (app_nil_r (marshalString (Blob sign))).
  rewrite parseString_marshalString by exact LB.
  rewrite string_of_list_byte_of_string. destruct sign; reflexivity.
Qed.

(** X6.  A request of a method other than [publickey] that the
    next-request phase decoded from a downstream packet goes upstream as
    the very bytes the client sent: the one packet the bridge step writes
    upstream is that downstream packet. *)
Theorem passthrough_is_byte_transparent s req s1 out s2 :
  nextRequest s = (Returns (Ok req), s1) ->
  Method req <> "publickey" ->
  bridgeStep req s1 = (out, s2) ->
  exists packet,
    incoming (Downstream (conn s)) = packet :: incoming (Downstream (conn s1))
    /\ Unmarshal_userAuthRequestMsg packet = Ok req
    /\ outgoing (Upstream (conn s2))
       = outgoing (Upstream (conn s1))
           ++ (if writeFails (Upstream (conn s1)) then [] else [packet]).
Proof.
  intros HN HM HB.
  destruct (nextRequest_spec _ HN) as (_ & _ & _ & R).
  destruct (incoming (Downstream (conn s))) as [|packet rest];
    [destruct R as [R _]; discriminate|].
  destruct R as [R1 R2]. exists packet.
  destruct packet as [|b body]; [discriminate|].
  destruct (Byte.eqb b msgUserAuthRequest); [|inversion R2].
  assert (HU : Unmarshal_userAuthRequestMsg (b :: body) = Ok req)
    by congruence.
  split; [rewrite R1; reflexivity|]. split; [exact HU|].
  unfold bridgeStep, bind in HB.
  rewrite handleAuthMsg_passthrough in HB by exact HM. simpl in HB.
  apply checkBridgeAuthWithNoBanner_spec in HB. destruct HB as (O & _).
  rewrite (Marshal_Unmarshal_userAuthRequestMsg _ HU) in O. exact O.
Qed.

(** X7.  [GetAuthRequestMsg] consumes one packet and writes none.  It
    returns a request only when the packet decodes to one whose service is
    [ssh-connection], and only then records the request's user on the
    connection; on every error the recorded user stays as it was. *)
Theorem GetAuthRequestMsg_records_user c r c' :
  GetAuthRequestMsg c = (r, c') ->
  outgoing (transport c') = outgoing (transport c)
  /\ match r with
     | Ok req =>
         Service req = serviceSSH
         /\ user c' = User req
         /\ exists packet,
              incoming (transport c) = packet :: incoming (transport c')
              /\ Unmarshal_userAuthRequestMsg packet = Ok req
              /\ Marshal_userAuthRequestMsg req = packet
     | Err _ =>
         user c' = user c
         /\ (incoming (transport c) = [] ->
             incoming (transport c') = [])
     end.
Proof.
  unfold GetAuthRequestMsg. intros H.
  destruct (readPacket_spec (transport c)) as (O & _ & _ & _ & R).
  destruct (readPacket (transport c)) as [rp t] eqn:ER. simpl in O, R.
  destruct (incoming (transport c)) as [|packet rest] eqn:Ein.
  - inversion R; subst. inversion H; subst. simpl. auto.
  - destruct R as [-> R2].
    destruct (Unmarshal_userAuthRequestMsg packet) as [req|err] eqn:HU.
    + destruct (String.eqb (Service req) serviceSSH) eqn:ES; simpl in H;
        inversion H; subst; simpl; (split; [exact O|]).
      * apply String.eqb_eq in ES. split; [exact ES|]. split; [reflexivity|].
        exists packet. repeat split; trivial.
        apply Marshal_Unmarshal_userAuthRequestMsg. exact HU.
      * split; [reflexivity | discriminate].
    + inversion H; subst. simpl. split; [exact O|].
      split; [reflexivity | discriminate].
Qed.

Lemma parseString_len input out rest :
  parseString input = Some (out, rest) -> (len out < 4294967296)%N.
Proof.
  unfold parseString.
  destruct input as [|b0 [|b1 [|b2 [|b3 tail]]]]; try discriminate.
  destruct (Nat.ltb_spec (List.length tail) (N.to_nat (uint32 b0 b1 b2 b3)))
    as [L|L]; [discriminate|].
  intros E. inversion E; subst. unfold len.
  rewrite length_firstn, Nat.min_l by exact L. rewrite N2Nat.id.
  apply uint32_bound.
Qed.

(** X8.  [sendAuthReq] returns nil exactly when the service request was
    written and the next upstream packet is a [SERVICE_ACCEPT] holding one
    string and nothing after it; the service named in the accept is not
    compared with the one requested.  An empty packet is an error, not a
    panic; the downstream connection is not touched. *)
Theorem sendAuthReq_accepts s out s' :
  sendAuthReq s = (out, s') ->
  (exists err, out = Returns err)
  /\ Downstream (conn s') = Downstream (conn s)
  /\ (out = Returns None <->
      writeFails (Upstream (conn s)) = false
      /\ exists service rest,
           (len service < 4294967296)%N
           /\ incoming (Upstream (conn s))
              = (msgServiceAccept :: marshalString service) :: rest)
  /\ (writeFails (Upstream (conn s)) = false ->
      forall rest, incoming (Upstream (conn s)) = [] :: rest ->
      out = Returns (Some (parseError msgServiceAccept))).
Proof.
  unfold sendAuthReq. intros H. unfold bind at 1 in H.
  destruct (Upstream_writePacket_spec
              (Marshal_serviceRequestMsg serviceUserAuth) s)
    as (s0 & E0 & C0 & F0).
  destruct (writePacket_spec (Upstream (conn s))
              (Marshal_serviceRequestMsg serviceUserAuth))
    as (W0 & _ & I0 & _).
  rewrite E0, W0 in H.
  destruct (writeFails (Upstream (conn s))) eqn:WF.
  { unfold ret in H. inversion H; subst.
    split; [eauto|]. split; [rewrite C0; reflexivity|].
    split; [|discriminate]. split; [discriminate|]. intros [X _].
    discriminate. }
  unfold bind in H.
  destruct (Upstream_readPacket_spec s0) as (s2 & E2 & C2 & F2).
  destruct (readPacket_spec (Upstream (conn s0))) as (_ & _ & _ & _ & R).
  rewrite E2 in H.
  assert (D : Downstream (conn s2) = Downstream (conn s))
    by (rewrite C2; simpl; rewrite C0; reflexivity).
  assert (I : incoming (Upstream (conn s0)) = incoming (Upstream (conn s)))
    by (rewrite C0; exact I0).
  rewrite I in R.
  destruct (incoming (Upstream (conn s))) as [|packet rest] eqn:Ein.
  { rewrite R in H. simpl in H. unfold ret in H. inversion H; subst.
    split; [eauto|]. split; [exact D|]. split; [|discriminate].
    split; [discriminate|]. intros (_ & sv & r & _ & X). discriminate. }
  destruct R as [R1 R2]. rewrite R1 in H.
  assert (Out : out = Returns (match Unmarshal_serviceAcceptMsg packet with
                               | Err err => Some err
                               | Ok _ => None
                               end) /\ s' = s2).
  { destruct (Unmarshal_serviceAcceptMsg packet); unfold ret in H;
      inversion H; auto. }
  destruct Out as [-> ->].
  split; [eauto|]. split; [exact D|]. split.
  - split.
    + intros E. split; [reflexivity|].
      unfold Unmarshal_serviceAcceptMsg in E.
      destruct packet as [|t data]; [discriminate|].
      destruct (Byte.eqb t msgServiceAccept) eqn:Et; [|discriminate].
      apply Byte.byte_dec_bl in Et. subst t.
      destruct (parseString data) as [[sv [|x tl]]|] eqn:EP;
        try discriminate.
      exists sv, rest. split; [eapply parseString_len; exact EP|].
      apply parseString_inv in EP. rewrite app_nil_r in EP. subst data.
      reflexivity.
    + intros (_ & sv & r & L & X). inversion X; subst.
      unfold Unmarshal_serviceAcceptMsg.
      change (Byte.eqb msgServiceAccept msgServiceAccept) with true.
      cbv iota. rewrite <- (app_nil_r (marshalString sv)).
      rewrite parseString_marshalString by exact L. reflexivity.
  - intros _ r X. inversion X; subst. reflexivity.
Qed.

Lemma handleAuthMsg_failure_reply msg s :
  let failure := Marshal_userAuthFailureMsg
                   {| Methods := [Method msg]; PartialSuccess := false |} in
  let w := writePacket (Downstream (conn s)) failure in
  exists s',
    handleAuthMsg_failure (Some msg) s = (Returns (None, fst w), s')
    /\ conn s' = set_Downstream (conn s) (snd w)
    /\ conf s' = conf s.
Proof.
  intros failure w.
  unfold handleAuthMsg_failure, sendFailureMsg, bind, ret.
  destruct (Downstream_writePacket_spec failure s) as (s' & E & C & F).
  change ([] ++ [Method msg]) with [Method msg]. fold failure.
  rewrite E. exists s'. auto.
Qed.

(** Every way [handleAuthMsg] returns without a request: it made one
    write on the downstream connection, of one of its two replies. *)
Lemma handleAuthMsg_nil msg s err s' :
  handleAuthMsg msg s = (Returns (None, err), s') ->
  exists reply,
    ProxyReply msg reply
    /\ conn s' = set_Downstream (conn s)
                   (snd (writePacket (Downstream (conn s)) reply))
    /\ err = fst (writePacket (Downstream (conn s)) reply).
Proof.
  intros H.
  destruct (string_dec (Method msg) "publickey") as [HM|HM];
    [|rewrite handleAuthMsg_passthrough in H by exact HM; discriminate].
  destruct (defaultFetchAuthorizedKeysHook_spec s)
    as (s0 & E0 & C0 & F0 & P0 & U0 & M0).
  assert (Hfail : forall r, handleAuthMsg_failure (Some msg) s0 = r ->
            r = (Returns (None, err), s') ->
            exists reply,
              ProxyReply msg reply
              /\ conn s' = set_Downstream (conn s)
                             (snd (writePacket (Downstream (conn s)) reply))
              /\ err = fst (writePacket (Downstream (conn s)) reply)).
  { intros r Er Eo.
    destruct (handleAuthMsg_failure_reply msg s0) as (s1 & E & C & _).
    rewrite E in Er. subst r. inversion Eo; subst. rewrite C0 in *.
    eexists. split; [right; reflexivity|]. split; [exact C | reflexivity]. }
  unfold handleAuthMsg in H. rewrite HM, String.eqb_refl in H.
  unfold bind at 1 in H. rewrite E0 in H.
  destruct (parsePublicKeyMsg msg) as [[[publicKey isQuery] sig]|e] eqn:HP;
    [|eapply Hfail; [reflexivity | exact H]].
  destruct isQuery.
  { unfold bind, sendOKMsg, ret in H.
    match type of H with context [Downstream_writePacket ?p s0] =>
      destruct (Downstream_writePacket_spec p s0) as (s1 & E & C & F);
      exists p
    end.
    rewrite E in H. inversion H; subst. rewrite C0 in *.
    split; [left; exists publicKey; reflexivity|]. split; trivial. }
  unfold bind at 1 in H. unfold getConf in H. rewrite F0 in H.
  destruct (match FetchAuthorizedKeysHook (conf s) with
            | Some hook => hook
            | None => fetchAuthorizedKeysFromHomeDir
            end (User msg)) as [authKeys|e]; [|discriminate].
  destruct (checkPublicKeyRegistration authKeys publicKey) as [[] [e|]];
    try discriminate.
  unfold bind at 1 in H. unfold getConn in H.
  unfold bind at 1 in H. unfold liftOutcome in H.
  destruct (VerifySignature (conn s0) msg publicKey sig)
    as [[ok verr]|why|]; try discriminate.
  destruct ok; [|eapply Hfail; [reflexivity | exact H]].
  destruct verr; [eapply Hfail; [reflexivity | exact H]|].
  destruct (fetchPrivateKey (conf s0) (ProxyUser (conn s0)))
    as [privateBytes|e]; [|eapply Hfail; [reflexivity | exact H]].
  destruct (ParsePrivateKey privateBytes) as [[signer|]|e];
    try (eapply Hfail; [reflexivity | exact H]).
  simpl in H. unfold bind, getConn in H.
  destruct (signAgain (conn s0) (User msg) msg signer); discriminate.
Qed.

Lemma handleAuthMsg_writes_one_reply_aux msg s out s' :
  handleAuthMsg msg s = (out, s') ->
  Upstream (conn s') = Upstream (conn s)
  /\ incoming (Downstream (conn s')) = incoming (Downstream (conn s))
  /\ match out with
     | Returns (Some _, _) | Panics _ =>
         outgoing (Downstream (conn s')) = outgoing (Downstream (conn s))
     | Returns (None, err) =>
         exists reply,
           ProxyReply msg reply
           /\ outgoing (Downstream (conn s'))
              = outgoing (Downstream (conn s))
                  ++ (if writeFails (Downstream (conn s)) then []
                      else [reply])
           /\ (err = None <-> writeFails (Downstream (conn s)) = false)
     | Diverges => False
     end.
Proof.
  intros H.
  assert (X : Upstream (conn s') = Upstream (conn s) /\ keeps s s'
              /\ match out with
                 | Returns (Some _, _) | Panics _ => conn s' = conn s
                 | Returns (None, _) => True
                 | Diverges => False
                 end).
  { destruct (string_dec (Method msg) "publickey") as [HM|HM].
    - destruct (handleAuthMsg_publickey _ _ HM H) as (U & K & C).
      split; [exact U|]. split; [exact K|].
      destruct out as [[[m|] err]|why|]; tauto.
    - rewrite handleAuthMsg_passthrough in H by exact HM.
      inversion H; subst. repeat split. }
  destruct X as (U & (I & _) & C). split; [exact U|]. split; [exact I|].
  destruct out as [[[m|] err]|why|]; try (rewrite C; reflexivity);
    [|exact C].
  destruct (handleAuthMsg_nil _ _ H) as (reply & P & Cn & ->).
  exists reply. split; [exact P|].
  destruct (writePacket_spec (Downstream (conn s)) reply) as (W & O & _).
  split; [rewrite Cn; exact O|]. rewrite W.
  destruct (writeFails (Downstream (conn s))); split; congruence.
Qed.

(** X9.  [handleAuthMsg] never writes upstream and never reads from
    either connection.  It writes at most one packet downstream; when it
    returns a request it has written nothing, and when it returns none it
    has made exactly one write, of a [USERAUTH_PK_OK] for a key or of a
    [USERAUTH_FAILURE] listing the method of the request. *)
Theorem handleAuthMsg_writes_one_reply msg s out s' :
  handleAuthMsg msg s = (out, s') ->
  Upstream (conn s') = Upstream (conn s)
  /\ incoming (Downstream (conn s')) = incoming (Downstream (conn s))
  /\ match out with
     | Returns (Some _, _) | Panics _ =>
         outgoing (Downstream (conn s')) = outgoing (Downstream (conn s))
     | Returns (None, err) =>
         exists reply,
           ProxyReply msg reply
           /\ outgoing (Downstream (conn s'))
              = outgoing (Downstream (conn s))
                  ++ (if writeFails (Downstream (conn s)) then []
                      else [reply])
           /\ (err = None <-> writeFails (Downstream (conn s)) = false)
     | Diverges => False
     end.
Proof. apply handleAuthMsg_writes_one_reply_aux. Qed.

(** One bridge step on the downstream side: at most one reply of the
    proxy's own, then upstream packets forwarded in the order read; an
    answer [true] means the last forwarded packet is a
    [USERAUTH_SUCCESS]. *)
Lemma bridgeStep_trace msg s out s' :
  bridgeStep msg s = (out, s') ->
  exists consumed sentDown,
    incoming (Upstream (conn s)) = consumed ++ incoming (Upstream (conn s'))
    /\ outgoing (Downstream (conn s'))
       = outgoing (Downstream (conn s)) ++ sentDown
    /\ Forall (fun packet => ProxyReply msg packet \/ In packet consumed)
         sentDown
    /\ forall err,
         out = Returns (true, err) ->
         err = None
         /\ exists before body,
              sentDown = before ++ [msgUserAuthSuccess :: body]
              /\ In (msgUserAuthSuccess :: body) consumed.
Proof.
  unfold bridgeStep. intros H. unfold bind in H.
  destruct (handleAuthMsg msg s) as [o s1] eqn:HH.
  destruct (handleAuthMsg_writes_one_reply_aux _ _ HH) as (U & _ & C).
  destruct o as [[[m|] herr]|why|]; simpl in H.
  - pose proof (checkBridgeAuthWithNoBanner_error_false _ _ H) as EF.
    apply checkBridgeAuthWithNoBanner_trace in H.
    destruct H as (consumed & forwarded & unsent & A & B & D & E).
    exists consumed, forwarded. rewrite U in A. rewrite C in D.
    split; [exact A|]. split; [exact D|]. split.
    + apply Forall_forall. intros pkt Hin. right. rewrite B.
      apply in_or_app. left. exact Hin.
    + intros err Eo. destruct err as [err|];
        [specialize (EF true err Eo); discriminate|].
      split; [reflexivity|].
      destruct (E true Eo) as (banners & t & body & P & Q & _ & _ & T & _).
      assert (t = msgUserAuthSuccess) by (apply T; reflexivity). subst t.
      rewrite Q, app_nil_r in B. subst forwarded.
      exists banners, body. split; [exact P|]. rewrite P.
      apply in_or_app. right. left. reflexivity.
  - unfold ret in H. inversion H; subst.
    destruct C as (reply & P & O & _).
    exists [], (if writeFails (Downstream (conn s)) then [] else [reply]).
    split; [rewrite U; reflexivity|]. split; [exact O|]. split.
    + destruct (writeFails (Downstream (conn s))); constructor;
        [left; exact P | constructor].
    + intros err E. discriminate.
  - inversion H; subst. exists [], []. rewrite app_nil_r.
    split; [rewrite U; reflexivity|]. split; [exact C|].
    split; [constructor|]. intros err E. discriminate.
  - contradiction.
Qed.

(** The downstream side of the whole loop. *)
Lemma authLoop_trace fuel : forall msg s out s',
  authLoop fuel msg s = (out, s') ->
  exists consumed sentDown,
    incoming (Upstream (conn s)) = consumed ++ incoming (Upstream (conn s'))
    /\ outgoing (Downstream (conn s'))
       = outgoing (Downstream (conn s)) ++ sentDown
    /\ Forall (fun packet =>
                (exists req, ProxyReply req packet) \/ In packet consumed)
         sentDown
    /\ (out = Returns None ->
        exists before body,
          sentDown = before ++ [msgUserAuthSuccess :: body]
          /\ In (msgUserAuthSuccess :: body) consumed).
Proof.
  induction fuel as [|fuel IH]; intros msg s out s' H.
  - simpl in H. unfold diverge in H. inversion H; subst.
    exists [], []. rewrite app_nil_r. repeat split; trivial.
    intros E. discriminate.
  - apply authLoop_step in H. destruct H as (o1 & s1 & HB & H).
    destruct (bridgeStep_trace _ _ HB) as (c1 & d1 & A1 & B1 & F1 & T1).
    assert (F1' : Forall (fun packet =>
                            (exists req, ProxyReply req packet)
                            \/ In packet c1) d1).
    { eapply Forall_impl; [|exact F1]. intros pkt [P|P]; eauto. }
    assert (Stop : forall o, out = o /\ s' = s1 -> o <> Returns None ->
              exists consumed sentDown,
                incoming (Upstream (conn s))
                  = consumed ++ incoming (Upstream (conn s'))
                /\ outgoing (Downstream (conn s'))
                   = outgoing (Downstream (conn s)) ++ sentDown
                /\ Forall (fun packet =>
                            (exists req, ProxyReply req packet)
                            \/ In packet consumed) sentDown
                /\ (out = Returns None ->
                    exists before body,
                      sentDown = before ++ [msgUserAuthSuccess :: body]
                      /\ In (msgUserAuthSuccess :: body) consumed)).
    { intros o [-> ->] Ho. exists c1, d1. repeat split; trivial.
      intros E. contradiction. }
    destruct o1 as [[ok [err|]]|why|];
      [ destruct ok; (eapply Stop; [exact H | discriminate])
      |
      | eapply Stop; [exact H | discriminate]
      | eapply Stop; [exact H | discriminate] ].
    destruct ok.
    { destruct H as [-> ->]. exists c1, d1. repeat split; trivial.
      intros _. destruct (T1 None eq_refl) as (_ & X). exact X. }
    destruct H as (o2 & s2 & HN & H).
    destruct (nextRequest_spec _ HN) as (U2 & D2 & _ & _).
    assert (Last : forall o, out = o /\ s' = s2 -> o <> Returns None ->
              exists consumed sentDown,
                incoming (Upstream (conn s))
                  = consumed ++ incoming (Upstream (conn s'))
                /\ outgoing (Downstream (conn s'))
                   = outgoing (Downstream (conn s)) ++ sentDown
                /\ Forall (fun packet =>
                            (exists req, ProxyReply req packet)
                            \/ In packet consumed) sentDown
                /\ (out = Returns None ->
                    exists before body,
                      sentDown = before ++ [msgUserAuthSuccess :: body]
                      /\ In (msgUserAuthSuccess :: body) consumed)).
    { intros o [-> ->] Ho. exists c1, d1. rewrite U2, D2.
      repeat split; trivial. intros E. contradiction. }
    destruct o2 as [[req|err]|why|];
      try (eapply Last; [exact H | discriminate]).
    apply IH in H. destruct H as (c2 & d2 & A2 & B2 & F2 & T2).
    exists (c1 ++ c2), (d1 ++ d2).
    split; [rewrite <- app_assoc, <- A2, U2; exact A1|].
    split; [rewrite B2, D2, B1, app_assoc; reflexivity|].
    split.
    + apply Forall_app. split.
      * eapply Forall_impl; [|exact F1'].
        intros pkt [P|P]; [left; exact P|].
        right. apply in_or_app. left. exact P.
      * eapply Forall_impl; [|exact F2].
        intros pkt [P|P]; [left; exact P|].
        right. apply in_or_app. right. exact P.
    + intros E. destruct (T2 E) as (before & body & P & Q).
      exists (d1 ++ before), body.
      split; [rewrite P, app_assoc; reflexivity|].
      apply in_or_app. right. exact Q.
Qed.

(** [sendAuthReq] on the two inputs and the downstream output. *)
Lemma sendAuthReq_frame s out s' :
  sendAuthReq s = (out, s') ->
  Downstream (conn s') = Downstream (conn s)
  /\ exists accept,
      incoming (Upstream (conn s)) = accept ++ incoming (Upstream (conn s'))
      /\ (out = Returns None -> exists packet, accept = [packet]).
Proof.
  unfold sendAuthReq. intros H. unfold bind at 1 in H.
  destruct (Upstream_writePacket_spec
              (Marshal_serviceRequestMsg serviceUserAuth) s)
    as (s0 & E0 & C0 & F0).
  destruct (writePacket_spec (Upstream (conn s))
              (Marshal_serviceRequestMsg serviceUserAuth))
    as (_ & _ & I0 & _).
  rewrite E0 in H.
  destruct (fst (writePacket (Upstream (conn s))
                   (Marshal_serviceRequestMsg serviceUserAuth))).
  { unfold ret in H. inversion H; subst. rewrite C0.
    split; [reflexivity|]. exists []. simpl. rewrite I0.
    split; [reflexivity | discriminate]. }
  unfold bind in H.
  destruct (Upstream_readPacket_spec s0) as (s2 & E2 & C2 & F2).
  destruct (readPacket_spec (Upstream (conn s0))) as (_ & _ & _ & _ & R).
  rewrite E2 in H.
  assert (D : Downstream (conn s2) = Downstream (conn s))
    by (rewrite C2; simpl; rewrite C0; reflexivity).
  assert (I : incoming (Upstream (conn s0)) = incoming (Upstream (conn s)))
    by (rewrite C0; exact I0).
  rewrite I in R.
  destruct (incoming (Upstream (conn s))) as [|packet rest] eqn:Ein.
  { rewrite R in H. simpl in H. unfold ret in H. inversion H; subst.
    split; [exact D|]. exists []. rewrite C2. simpl. rewrite R. simpl.
    rewrite I. split; [reflexivity | discriminate]. }
  destruct R as [R1 R2]. rewrite R1 in H.
  assert (S2 : s' = s2).
  { destruct (Unmarshal_serviceAcceptMsg packet); unfold ret in H;
      inversion H; reflexivity. }
  subst s'. split; [exact D|]. exists [packet].
  rewrite C2. simpl. rewrite R2. split; [reflexivity | eauto].
Qed.

(** X10.  [AuthenticateProxyConn] returns nil only after a
    [USERAUTH_SUCCESS] packet was read from the upstream, after the reply
    to the service request, and that packet is the last one it wrote
    downstream. *)
Theorem success_only_after_upstream_success init s s' :
  AuthenticateProxyConn init s = (Returns None, s') ->
  exists accept consumed before body,
    incoming (Upstream (conn s))
      = accept :: consumed ++ incoming (Upstream (conn s'))
    /\ In (msgUserAuthSuccess :: body) consumed
    /\ outgoing (Downstream (conn s'))
       = outgoing (Downstream (conn s))
           ++ before ++ [msgUserAuthSuccess :: body].
Proof.
  unfold AuthenticateProxyConn. intros H. unfold bind in H.
  destruct (sendAuthReq s) as [o s1] eqn:HS.
  destruct (sendAuthReq_frame _ HS) as (D & acc & A & N).
  destruct o as [[err|]|why|]; try discriminate.
  destruct (N eq_refl) as [packet ->].
  apply authLoop_trace in H. destruct H as (c & d & A2 & B2 & _ & T).
  destruct (T eq_refl) as (before & body & P & Q).
  exists packet, c, before, body.
  split; [rewrite A, A2; reflexivity|]. split; [exact Q|].
  rewrite B2, D, P. reflexivity.
Qed.

(** X11.  Every packet [AuthenticateProxyConn] writes downstream is one of
    the proxy's two replies ([USERAUTH_PK_OK] for a key, [USERAUTH_FAILURE]
    listing the method of a request) or a packet read from the upstream;
    the upstream packets it consumed are a prefix of the upstream input. *)
Theorem downstream_packets_provenance init s out s' :
  AuthenticateProxyConn init s = (out, s') ->
  exists consumed sentDown,
    incoming (Upstream (conn s)) = consumed ++ incoming (Upstream (conn s'))
    /\ outgoing (Downstream (conn s'))
       = outgoing (Downstream (conn s)) ++ sentDown
    /\ Forall (fun packet =>
                (exists req, ProxyReply req packet) \/ In packet consumed)
         sentDown.
Proof.
  unfold AuthenticateProxyConn. intros H. unfold bind in H.
  destruct (sendAuthReq s) as [o s1] eqn:HS.
  destruct (sendAuthReq_frame _ HS) as (D & acc & A & _).
  assert (Stop : (out, s') = (o, s1) \/ (out, s') = (Returns None, s1)
                 \/ (exists e, (out, s') = (Returns (Some e), s1)) ->
            exists consumed sentDown,
              incoming (Upstream (conn s))
                = consumed ++ incoming (Upstream (conn s'))
              /\ outgoing (Downstream (conn s'))
                 = outgoing (Downstream (conn s)) ++ sentDown
              /\ Forall (fun packet =>
                          (exists req, ProxyReply req packet)
                          \/ In packet consumed) sentDown).
  { intros E. assert (s' = s1) by (destruct E as [E|[E|[e E]]]; congruence).
    subst s'. exists acc, []. rewrite app_nil_r, D.
    repeat split; trivial. }
  destruct o as [[err|]|why|];
    try (apply Stop; unfold ret in H; inversion H; eauto; fail).
  apply authLoop_trace in H. destruct H as (c & d & A2 & B2 & F & _).
  exists (acc ++ c), d. split; [rewrite <- app_assoc, <- A2; exact A|].
  split; [rewrite B2, D; reflexivity|].
  eapply Forall_impl; [|exact F]. intros pkt [P|P]; [left; exact P|].
  right. apply in_or_app. right. exact P.
Qed.

(** X12.  A [publickey] request that does not parse, or whose key is
    authorized but whose signature [VerifySignature] does not accept, is
    answered with exactly one write downstream, of a [USERAUTH_FAILURE]
    listing [publickey]; nothing goes upstream and the bridge step is
    skipped. *)
Theorem rejected_attempt_gets_failure msg s :
  Method msg = "publickey" ->
  match parsePublicKeyMsg msg with
  | Err _ => True
  | Ok (publicKey, isQuery, sig) =>
      isQuery = false
      /\ exists authKeys v,
           authorizedKeysHook (conf s) (User msg) = Ok authKeys
           /\ checkPublicKeyRegistration authKeys publicKey = (true, None)
           /\ VerifySignature (conn s) msg publicKey sig = Returns v
           /\ v <> (true, None)
  end ->
  let failure := Marshal_userAuthFailureMsg
                   {| Methods := ["publickey"]; PartialSuccess := false |} in
  let w := writePacket (Downstream (conn s)) failure in
  exists s',
    handleAuthMsg msg s = (Returns (None, fst w), s')
    /\ conn s' = set_Downstream (conn s) (snd w)
    /\ bridgeStep msg s = (Returns (false, None), s').
Proof.
  intros HM HR failure w.
  destruct (defaultFetchAuthorizedKeysHook_spec s)
    as (s0 & E0 & C0 & F0 & P0 & U0 & M0).
  destruct (handleAuthMsg_failure_reply msg s0) as (s1 & EF & CF & _).
  rewrite HM, C0 in EF, CF. fold failure in EF, CF. fold w in EF, CF.
  assert (HH : handleAuthMsg msg s = (Returns (None, fst w), s1)).
  { unfold handleAuthMsg. rewrite HM, String.eqb_refl.
    unfold bind at 1. rewrite E0.
    destruct (parsePublicKeyMsg msg) as [[[publicKey isQuery] sig]|e];
      [|exact EF].
    destruct HR as (-> & authKeys & v & HA & HC & HV & Hv).
    unfold bind at 1. unfold getConf. rewrite F0.
    fold (authorizedKeysHook (conf s)). rewrite HA, HC.
    unfold bind at 1. unfold getConn.
    unfold bind at 1. unfold liftOutcome. rewrite C0, HV.
    destruct v as [[] [e|]]; try exact EF. congruence. }
  exists s1. split; [exact HH|]. split; [exact CF|].
  unfold bridgeStep, bind. rewrite HH. reflexivity.
Qed.

(** X13.  When a signed attempt passes the gate, the private key is the
    one fetched for the user of the proxy connection ([p.User]), whatever
    user the request names, while the request is re-signed for the user
    it names; when that key parses to a signer and [signAgain] succeeds,
    [handleAuthMsg] returns the re-signed request without error and
    without writing anything. *)
Theorem resign_uses_connection_user msg s publicKey sig authKeys
    privateBytes signer m :
  parsePublicKeyMsg msg = Ok (publicKey, false, Some sig) ->
  authorizedKeysHook (conf s) (User msg) = Ok authKeys ->
  checkPublicKeyRegistration authKeys publicKey = (true, None) ->
  VerifySignature (conn s) msg publicKey (Some sig) = Returns (true, None) ->
  fetchPrivateKey (conf s) (ProxyUser (conn s)) = Ok privateBytes ->
  ParsePrivateKey privateBytes = Ok (Some signer) ->
  signAgain (conn s) (User msg) msg signer = Ok m ->
  exists s0,
    handleAuthMsg msg s = (Returns (Some m, None), s0)
    /\ conn s0 = conn s.
Proof.
  intros HP HA HC HV HF HK HS.
  pose proof (parsePublicKeyMsg_Method _ HP) as HM.
  destruct (defaultFetchAuthorizedKeysHook_spec s)
    as (s0 & E0 & C0 & F0 & P0 & U0 & M0).
  exists s0. split; [|exact C0].
  unfold handleAuthMsg. rewrite HM, String.eqb_refl.
  unfold bind at 1. rewrite E0, HP.
  unfold bind at 1. unfold getConf. rewrite F0.
  fold (authorizedKeysHook (conf s)). rewrite HA, HC.
  unfold bind at 1. unfold getConn.
  unfold bind at 1. unfold liftOutcome. rewrite C0, HV.
  rewrite (fetchPrivateKey_conf _ _ _ P0 U0 M0), HF, HK.
  simpl. unfold bind, getConn. rewrite C0, HS. reflexivity.
Qed.

(** X15.  When the upstream answers the service request with a packet
    that is not a well-formed [SERVICE_ACCEPT], [AuthenticateProxyConn]
    returns the decoding error at once: the initial request is not
    handled, nothing is written downstream and only the service request
    went upstream. *)
Theorem refused_service_aborts init s packet rest err :
  writeFails (Upstream (conn s)) = false ->
  incoming (Upstream (conn s)) = packet :: rest ->
  Unmarshal_serviceAcceptMsg packet = Err err ->
  exists s',
    AuthenticateProxyConn init s = (Returns (Some err), s')
    /\ Downstream (conn s') = Downstream (conn s)
    /\ incoming (Upstream (conn s')) = rest
    /\ outgoing (Upstream (conn s'))
       = outgoing (Upstream (conn s))
           ++ [Marshal_serviceRequestMsg serviceUserAuth].
Proof.
  intros WF Hin HU.
  unfold AuthenticateProxyConn, sendAuthReq, bind.
  destruct (Upstream_writePacket_spec
              (Marshal_serviceRequestMsg serviceUserAuth) s)
    as (s0 & E0 & C0 & F0).
  destruct (writePacket_spec (Upstream (conn s))
              (Marshal_serviceRequestMsg serviceUserAuth))
    as (W0 & O0 & I0 & _).
  rewrite WF in W0, O0. rewrite E0, W0.
  destruct (Upstream_readPacket_spec s0) as (s2 & E2 & C2 & F2).
  destruct (readPacket_spec (Upstream (conn s0))) as (O2 & _ & _ & _ & R).
  assert (I : incoming (Upstream (conn s0)) = packet :: rest)
    by (rewrite C0; simpl; rewrite I0; exact Hin).
  rewrite I in R. destruct R as [R1 R2].
  rewrite E2, R1, HU. exists s2. split; [reflexivity|].
  rewrite C2. simpl. rewrite C0 at 1. simpl.
  split; [reflexivity|]. split; [exact R2|].
  rewrite O2, C0. simpl. exact O0.
Qed.

(** X17.  [parsePublicKeyMsg] on a payload made of a [has_sig] byte, an
    algorithm name and a key blob, followed by anything.  With a zero
    [has_sig] byte the bytes after the blob are ignored: the result is the
    parsed key as a query, or the error of an unaccepted algorithm or of
    the key parser.  With any other [has_sig] byte a signature must follow
    and end the payload: bytes left after it make the request a parse
    error. *)
Theorem parsePublicKeyMsg_trailing_bytes user service hasSig algo blob
    sigBytes extra :
  (len (list_byte_of_string algo) < 4294967296)%N ->
  (len blob < 4294967296)%N ->
  (len sigBytes < 4294967296)%N ->
  let request := fun payload =>
    {| User := user; Service := service; Method := "publickey";
       Payload := payload |} in
  parsePublicKeyMsg
    (request (x00 :: str algo ++ marshalString blob ++ extra))
  = (if isAcceptableAlgo algo then
       match ParsePublicKey blob with
       | Ok key => Ok (key, true, None)
       | Err err => Err err
       end
     else Err "ssh: algorithm not accepted")
  /\ (hasSig <> x00 -> extra <> [] ->
      exists err,
        parsePublicKeyMsg
          (request (hasSig :: str algo ++ marshalString blob
                      ++ marshalString sigBytes ++ extra))
        = Err err).
Proof.
  intros LA LB LS request. split.
  - unfold parsePublicKeyMsg, request. cbn [Method Payload].
    change (negb (String.eqb "publickey" "publickey")) with false.
    cbv iota. change (Byte.eqb x00 x00) with true.
    unfold str. rewrite parseString_marshalString by exact LA.
    rewrite string_of_list_byte_of_string.
    destruct (isAcceptableAlgo algo); [|reflexivity]. cbn [negb].
    rewrite parseString_marshalString by exact LB.
    destruct (ParsePublicKey blob); reflexivity.
  - intros Hs He. unfold parsePublicKeyMsg, request. cbn [Method Payload].
    change (negb (String.eqb "publickey" "publickey")) with false.
    cbv iota.
    assert (Eq : Byte.eqb hasSig x00 = false).
    { destruct (Byte.eqb hasSig x00) eqn:E; [|reflexivity].
      apply Byte.byte_dec_bl in E. contradiction. }
    rewrite Eq. unfold str.
    rewrite parseString_marshalString by exact LA.
    rewrite string_of_list_byte_of_string.
    destruct (isAcceptableAlgo algo); cbn [negb]; [|eauto].
    rewrite parseString_marshalString by exact LB.
    destruct (ParsePublicKey blob); [|eauto].
    unfold parseSignature.
    rewrite parseString_marshalString by exact LS.
    destruct (parseSignatureBody sigBytes) as [[sig [|x tl]]|];
      destruct extra; try congruence; eauto.
Qed.


End Relay.

Section MatcherExtras.
Context `{lib : SSHLibrary}.

(** X16.  [checkPublicKeyRegistration] knows the candidate only by its
    marshaled form: two keys that marshal to the same bytes get the same
    answer on every authorized-keys file. *)
Theorem checkPublicKeyRegistration_by_marshal authKeys key1 key2 :
  PublicKey_Marshal key1 = PublicKey_Marshal key2 ->
  checkPublicKeyRegistration authKeys key1
  = checkPublicKeyRegistration authKeys key2.
Proof.
  intros E. rewrite !checkPublicKeyRegistration_entries.
  replace (existsb (sameKey key1) (fst (parsedEntries authKeys)))
    with (existsb (sameKey key2) (fst (parsedEntries authKeys)));
    [reflexivity|].
  induction (fst (parsedEntries authKeys)) as [|k ks IH]; simpl;
    [reflexivity|].
  rewrite IH. unfold sameKey. rewrite E. reflexivity.
Qed.

End MatcherExtras.

Section FileExtras.
Context `{os : HostOS}.

Lemma land_63_zero m :
  N.land m 63 = 0%N <-> forall i, (i < 6)%N -> N.testbit m i = false.
Proof.
  change 63%N with (N.ones 6). split.
  - intros E i Hi.
    assert (T : N.testbit (N.land m (N.ones 6)) i = false)
      by (rewrite E; apply N.bits_0).
    rewrite N.land_spec, N.ones_spec_low in T by exact Hi.
    rewrite andb_true_r in T. exact T.
  - intros H. apply N.bits_inj. intros i. rewrite N.land_spec, N.bits_0.
    destruct (N.lt_ge_cases i 6) as [L|L].
    + rewrite H by exact L. reflexivity.
    + rewrite N.ones_spec_high by exact L. apply andb_false_r.
Qed.

(** X14.  [checkPermission] returns nil exactly for an existing file none
    of whose six group and other permission bits is set; the owner's bits
    and the bits above the permissions play no role. *)
Theorem checkPermission_group_other_bits file user :
  checkPermission file user = None <->
  exists f,
    fs (userSpecFile user file) = Some f
    /\ forall i, (i < 6)%N -> N.testbit (mode f) i = false.
Proof.
  unfold checkPermission, Perm.
  destruct (fs (userSpecFile user file)) as [f|].
  - rewrite <- N.land_assoc. change (N.land 511 63) with 63%N.
    destruct (N.eqb_spec (N.land (mode f) 63) 0) as [E|E]; simpl.
    + split; [|reflexivity]. intros _. exists f. split; [reflexivity|].
      apply land_63_zero. exact E.
    + split; [discriminate|]. intros (f' & Ef & H). inversion Ef; subst f'.
      apply land_63_zero in H. contradiction.
  - split; [discriminate|]. intros (f & Ef & _). discriminate.
Qed.

End FileExtras.

(** ** The further properties on concrete connections *)

Section MoreConcrete.
Import Example Wire Codec.

Lemma relay_forwards_in_order_witness :
  let s := proxy "alice"
             [[msgUserAuthBanner; x41]; [msgUserAuthSuccess]; [x5a]] [] in
  let c := checkBridgeAuthWithNoBanner aliceAttempt_packet s in
  checkBridgeAuthWithNoBanner aliceAttempt_packet s = (fst c, snd c)
  /\ fst c = Returns (true, None)
  /\ exists consumed forwarded unsent,
      incoming (Upstream (conn s))
        = consumed ++ incoming (Upstream (conn (snd c)))
      /\ consumed = forwarded ++ unsent
      /\ outgoing (Downstream (conn (snd c)))
         = outgoing (Downstream (conn s)) ++ forwarded.
Proof.
  intros s c.
  assert (H : checkBridgeAuthWithNoBanner aliceAttempt_packet s
              = (fst c, snd c)) by (vm_compute; reflexivity).
  split; [exact H|]. split; [vm_compute; reflexivity|].
  destruct (@relay_forwards_in_order library host aliceAttempt_packet s
              (fst c) (snd c) H)
    as (consumed & forwarded & unsent & A & B & C & _).
  exists consumed, forwarded, unsent. auto.
Defined.

Lemma relay_errors_answer_false_witness :
  let s := brokenProxy "alice" [[msgUserAuthSuccess]] [] in
  let c := checkBridgeAuthWithNoBanner aliceAttempt_packet s in
  checkBridgeAuthWithNoBanner aliceAttempt_packet s = (fst c, snd c)
  /\ writeFails (Upstream (conn s)) = true
  /\ fst c = Returns (false, Some "write: broken pipe")
  /\ incoming (Upstream (conn (snd c))) = incoming (Upstream (conn s))
  /\ outgoing (Upstream (conn (snd c))) = outgoing (Upstream (conn s))
  /\ Downstream (conn (snd c)) = Downstream (conn s).
Proof.
  intros s c.
  assert (H : checkBridgeAuthWithNoBanner aliceAttempt_packet s
              = (fst c, snd c)) by (vm_compute; reflexivity).
  assert (W : writeFails (Upstream (conn s)) = true) by reflexivity.
  split; [exact H|]. split; [exact W|].
  destruct (@relay_errors_answer_false library host aliceAttempt_packet s
              (fst c) (snd c) H) as (_ & B).
  exact (B W).
Defined.

Lemma piping_copies_in_order_witness :
  let dst := link downSID [] in
  let src := link upSID [[x5e]; [x5f; x01]] in
  let r := piping dst src in
  piping dst src = (fst r, (fst (snd r), snd (snd r)))
  /\ fst r = Returns "EOF"
  /\ outgoing (fst (snd r)) = [[x5e]; [x5f; x01]]
  /\ incoming (fst (snd r)) = incoming dst
  /\ outgoing (snd (snd r)) = outgoing src.
Proof.
  intros dst src r.
  assert (H : piping dst src = (fst r, (fst (snd r), snd (snd r))))
    by (vm_compute; reflexivity).
  split; [exact H|]. split; [vm_compute; reflexivity|].
  split; [vm_compute; reflexivity|].
  destruct (@piping_copies_in_order library dst src (fst r) (fst (snd r))
              (snd (snd r)) H) as (A & B & _).
  split; [exact A | exact B].
Defined.

Lemma signAgain_request_witness :
  let p := conn (proxy "alice" [] []) in
  (len (list_byte_of_string "alice") < 4294967296)%N
  /\ signAgain p "alice" aliceAttempt proxySigner
     = Ok {| User := "alice"; Service := serviceSSH; Method := "publickey";
             Payload :=
               x01 :: str algo ++ marshalString proxyKey
                 ++ marshalString
                      (Marshal_Signature (proxySignature upSID "alice")) |}.
Proof.
  intros p.
  assert (L : (len (list_byte_of_string "alice") < 4294967296)%N)
    by reflexivity.
  split; [exact L|].
  rewrite (@signAgain_request library p "alice" aliceAttempt proxySigner L).
  reflexivity.
Defined.

Lemma signAgain_parses_back_witness :
  let p := conn (proxy "alice" [] []) in
  isAcceptableAlgo (PublicKey_Type (Signer_PublicKey proxySigner)) = true
  /\ ParsePublicKey (PublicKey_Marshal (Signer_PublicKey proxySigner))
     = Ok proxyKey
  /\ exists m,
      signAgain p "alice" aliceAttempt proxySigner = Ok m
      /\ parsePublicKeyMsg m
         = Ok (proxyKey, false, Some (proxySignature upSID "alice")).
Proof.
  intros p. split; [reflexivity|]. split; [reflexivity|].
  apply (@signAgain_parses_back library p "alice" aliceAttempt proxySigner
           (proxySignature upSID "alice") proxyKey); reflexivity.
Defined.

Lemma passthrough_is_byte_transparent_witness :
  let req := password "alice" "secret" in
  let packet := Marshal_userAuthRequestMsg req in
  let s := proxy "alice" [[msgUserAuthFailure]] [packet] in
  let s1 := snd (nextRequest s) in
  let b := bridgeStep req s1 in
  nextRequest s = (Returns (Ok req), s1)
  /\ Method req <> "publickey"
  /\ bridgeStep req s1 = (fst b, snd b)
  /\ exists packet',
      incoming (Downstream (conn s))
        = packet' :: incoming (Downstream (conn s1))
      /\ Unmarshal_userAuthRequestMsg packet' = Ok req
      /\ outgoing (Upstream (conn (snd b)))
         = outgoing (Upstream (conn s1))
             ++ (if writeFails (Upstream (conn s1)) then [] else [packet']).
Proof.
  intros req packet s s1 b.
  assert (H1 : nextRequest s = (Returns (Ok req), s1))
    by (vm_compute; reflexivity).
  assert (H2 : Method req <> "publickey") by (vm_compute; discriminate).
  assert (H3 : bridgeStep req s1 = (fst b, snd b))
    by (vm_compute; reflexivity).
  split; [exact H1|]. split; [exact H2|]. split; [exact H3|].
  exact (@passthrough_is_byte_transparent library host s req s1 (fst b)
           (snd b) H1 H2 H3).
Defined.

Lemma GetAuthRequestMsg_records_user_witness :
  let c := {| transport := link downSID [aliceAttempt_packet];
              user := "" |} in
  let g := GetAuthRequestMsg c in
  GetAuthRequestMsg c = (Ok aliceAttempt, snd g)
  /\ outgoing (transport (snd g)) = outgoing (transport c)
  /\ Service aliceAttempt = serviceSSH
  /\ user (snd g) = User aliceAttempt.
Proof.
  intros c g.
  assert (H : GetAuthRequestMsg c = (Ok aliceAttempt, snd g))
    by (vm_compute; reflexivity).
  split; [exact H|].
  destruct (@GetAuthRequestMsg_records_user library c (Ok aliceAttempt)
              (snd g) H) as (A & B & C & _).
  auto.
Defined.

Lemma sendAuthReq_accepts_witness :
  let s := proxy "alice" [serviceAccept; [msgUserAuthSuccess]] [] in
  let r := sendAuthReq s in
  sendAuthReq s = (Returns None, snd r)
  /\ Downstream (conn (snd r)) = Downstream (conn s)
  /\ writeFails (Upstream (conn s)) = false
  /\ exists service rest,
      (len service < 4294967296)%N
      /\ incoming (Upstream (conn s))
         = (msgServiceAccept :: marshalString service) :: rest.
Proof.
  intros s r.
  assert (H : sendAuthReq s = (Returns None, snd r))
    by (vm_compute; reflexivity).
  split; [exact H|].
  destruct (@sendAuthReq_accepts library s (Returns None) (snd r) H)
    as (_ & D & (A & _) & _).
  split; [exact D|]. exact (A eq_refl).
Defined.

Lemma handleAuthMsg_writes_one_reply_witness :
  let msg := query "alice" aliceKey in
  let s := proxy "alice" [] [] in
  let h := handleAuthMsg msg s in
  handleAuthMsg msg s = (Returns (None, None), snd h)
  /\ Upstream (conn (snd h)) = Upstream (conn s)
  /\ incoming (Downstream (conn (snd h))) = incoming (Downstream (conn s))
  /\ exists reply,
      ProxyReply msg reply
      /\ outgoing (Downstream (conn (snd h)))
         = outgoing (Downstream (conn s))
             ++ (if writeFails (Downstream (conn s)) then [] else [reply])
      /\ (@None error = None <-> writeFails (Downstream (conn s)) = false).
Proof.
  intros msg s h.
  assert (H : handleAuthMsg msg s = (Returns (None, None), snd h))
    by (vm_compute; reflexivity).
  split; [exact H|].
  exact (@handleAuthMsg_writes_one_reply library host msg s
           (Returns (None, None)) (snd h) H).
Defined.

Lemma success_only_after_upstream_success_witness :
  let s := proxy "alice"
             [serviceAccept; [msgUserAuthBanner]; [msgUserAuthSuccess]] [] in
  let a := AuthenticateProxyConn aliceAttempt s in
  AuthenticateProxyConn aliceAttempt s = (Returns None, snd a)
  /\ exists accept consumed before body,
      incoming (Upstream (conn s))
        = accept :: consumed ++ incoming (Upstream (conn (snd a)))
      /\ In (msgUserAuthSuccess :: body) consumed
      /\ outgoing (Downstream (conn (snd a)))
         = outgoing (Downstream (conn s))
             ++ before ++ [msgUserAuthSuccess :: body].
Proof.
  intros s a.
  assert (H : AuthenticateProxyConn aliceAttempt s = (Returns None, snd a))
    by (vm_compute; reflexivity).
  split; [exact H|].
  exact (@success_only_after_upstream_success library host aliceAttempt s
           (snd a) H).
Defined.

Lemma downstream_packets_provenance_witness :
  let s := proxy "alice" [serviceAccept; [msgUserAuthFailure]]
             [Marshal_userAuthRequestMsg (query "alice" aliceKey)] in
  let a := AuthenticateProxyConn strangerAttempt s in
  AuthenticateProxyConn strangerAttempt s = (fst a, snd a)
  /\ List.length (outgoing (Downstream (conn (snd a)))) = 2
  /\ exists consumed sentDown,
      incoming (Upstream (conn s))
        = consumed ++ incoming (Upstream (conn (snd a)))
      /\ outgoing (Downstream (conn (snd a)))
         = outgoing (Downstream (conn s)) ++ sentDown
      /\ Forall (fun packet =>
                  (exists req, ProxyReply req packet) \/ In packet consumed)
           sentDown.
Proof.
  intros s a.
  assert (H : AuthenticateProxyConn strangerAttempt s = (fst a, snd a))
    by (vm_compute; reflexivity).
  split; [exact H|]. split; [vm_compute; reflexivity|].
  exact (@downstream_packets_provenance library host strangerAttempt s
           (fst a) (snd a) H).
Defined.

Lemma rejected_attempt_gets_failure_witness :
  let msg := signedBy upSID "alice" aliceKey in
  let s := proxy "alice" [] [] in
  let failure := Marshal_userAuthFailureMsg
                   {| Methods := ["publickey"]; PartialSuccess := false |} in
  Method msg = "publickey"
  /\ (exists sig,
        parsePublicKeyMsg msg = Ok (aliceKey, false, Some sig)
        /\ VerifySignature (conn s) msg aliceKey (Some sig)
           = Returns (false, None))
  /\ exists s',
      handleAuthMsg msg s = (Returns (None, None), s')
      /\ outgoing (Downstream (conn s')) = [failure]
      /\ Upstream (conn s') = Upstream (conn s)
      /\ bridgeStep msg s = (Returns (false, None), s').
Proof.
  intros msg s failure.
  assert (H1 : Method msg = "publickey") by reflexivity.
  destruct (parsePublicKeyMsg msg) as [[[k q] [sig|]]|e] eqn:HP;
    try (vm_compute in HP; discriminate).
  assert (Hk : k = aliceKey /\ q = false)
    by (vm_compute in HP; inversion HP; split; reflexivity).
  destruct Hk as [-> ->].
  assert (HV : VerifySignature (conn s) msg aliceKey (Some sig)
               = Returns (false, None))
    by (vm_compute in HP; inversion HP; subst sig; vm_compute; reflexivity).
  assert (H2 : match parsePublicKeyMsg msg with
               | Err _ => True
               | Ok (publicKey, isQuery, sig0) =>
                   isQuery = false
                   /\ exists authKeys v,
                        authorizedKeysHook (conf s) (User msg) = Ok authKeys
                        /\ checkPublicKeyRegistration authKeys publicKey
                           = (true, None)
                        /\ VerifySignature (conn s) msg publicKey sig0
                           = Returns v
                        /\ v <> (true, None)
               end).
  { rewrite HP. split; [reflexivity|].
    exists (aliceKey ++ [x0a]), (false, None).
    split; [vm_compute; reflexivity|]. split; [vm_compute; reflexivity|].
    split; [exact HV | discriminate]. }
  split; [exact H1|]. split; [exists sig; split; [reflexivity | exact HV]|].
  destruct (@rejected_attempt_gets_failure library host msg s H1 H2)
    as (s' & A & B & C).
  exists s'. split; [exact A|]. split; [rewrite B; reflexivity|].
  split; [rewrite B; reflexivity | exact C].
Defined.

Lemma resign_uses_connection_user_witness :
  let msg := bobAttempt in
  let s := proxy "alice" [] [] in
  User msg = "bob"
  /\ ProxyUser (conn s) = "alice"
  /\ fetchPrivateKey (conf s) "bob" = Ok (x00 :: proxyKey)
  /\ fetchPrivateKey (conf s) (ProxyUser (conn s)) = Ok (x01 :: proxyKey)
  /\ ParsePrivateKey (x01 :: proxyKey) = Ok (Some proxySigner)
  /\ exists m s0,
      signAgain (conn s) (User msg) msg proxySigner = Ok m
      /\ User m = "bob"
      /\ handleAuthMsg msg s = (Returns (Some m, None), s0)
      /\ conn s0 = conn s.
Proof.
  intros msg s.
  split; [reflexivity|]. split; [reflexivity|]. split; [reflexivity|].
  assert (HF : fetchPrivateKey (conf s) (ProxyUser (conn s))
               = Ok (x01 :: proxyKey)) by reflexivity.
  assert (HK : ParsePrivateKey (x01 :: proxyKey) = Ok (Some proxySigner))
    by reflexivity.
  split; [exact HF|]. split; [exact HK|].
  destruct (parsePublicKeyMsg msg) as [[[k q] [sig|]]|e] eqn:HP;
    try (vm_compute in HP; discriminate).
  assert (Hk : k = aliceKey /\ q = false)
    by (vm_compute in HP; inversion HP; split; reflexivity).
  destruct Hk as [-> ->].
  assert (HA : authorizedKeysHook (conf s) (User msg)
               = Ok (aliceKey ++ [x0a])) by (vm_compute; reflexivity).
  assert (HC : checkPublicKeyRegistration (aliceKey ++ [x0a]) aliceKey
               = (true, None)) by (vm_compute; reflexivity).
  assert (HV : VerifySignature (conn s) msg aliceKey (Some sig)
               = Returns (true, None))
    by (vm_compute in HP; inversion HP; subst sig; vm_compute; reflexivity).
  destruct (signAgain (conn s) (User msg) msg proxySigner) as [m|e] eqn:HS;
    [|vm_compute in HS; discriminate].
  destruct (@resign_uses_connection_user library host msg s aliceKey sig
              (aliceKey ++ [x0a]) (x01 :: proxyKey) proxySigner m
              HP HA HC HV HF HK HS) as (s0 & A & B).
  exists m, s0. split; [reflexivity|].
  split; [vm_compute in HS; inversion HS; reflexivity|].
  split; [exact A | exact B].
Defined.

Lemma refused_service_aborts_witness :
  let s := proxy "alice" [[x5a]; [msgUserAuthSuccess]] [] in
  writeFails (Upstream (conn s)) = false
  /\ incoming (Upstream (conn s)) = [x5a] :: [[msgUserAuthSuccess]]
  /\ Unmarshal_serviceAcceptMsg [x5a] = Err unexpectedMessageError
  /\ exists s',
      AuthenticateProxyConn aliceAttempt s
        = (Returns (Some unexpectedMessageError), s')
      /\ Downstream (conn s') = Downstream (conn s)
      /\ incoming (Upstream (conn s')) = [[msgUserAuthSuccess]]
      /\ outgoing (Upstream (conn s'))
         = outgoing (Upstream (conn s))
             ++ [Marshal_serviceRequestMsg serviceUserAuth].
Proof.
  intros s.
  assert (H1 : writeFails (Upstream (conn s)) = false) by reflexivity.
  assert (H2 : incoming (Upstream (conn s))
               = [x5a] :: [[msgUserAuthSuccess]]) by reflexivity.
  assert (H3 : Unmarshal_serviceAcceptMsg [x5a]
               = Err unexpectedMessageError) by reflexivity.
  split; [exact H1|]. split; [exact H2|]. split; [exact H3|].
  exact (@refused_service_aborts library host aliceAttempt s [x5a]
           [[msgUserAuthSuccess]] unexpectedMessageError H1 H2 H3).
Defined.

Lemma checkPublicKeyRegistration_by_marshal_witness :
  let authKeys := proxyKey ++ [x0a] ++ aliceKey ++ [x0a] in
  PublicKey_Marshal aliceKey = PublicKey_Marshal [x41; x4b]
  /\ checkPublicKeyRegistration authKeys aliceKey
     = checkPublicKeyRegistration authKeys [x41; x4b].
Proof.
  intros authKeys.
  assert (H : PublicKey_Marshal aliceKey = PublicKey_Marshal [x41; x4b])
    by reflexivity.
  split; [exact H|].
  exact (@checkPublicKeyRegistration_by_marshal library authKeys aliceKey
           [x41; x4b] H).
Defined.

Lemma parsePublicKeyMsg_trailing_bytes_witness :
  let request := fun payload =>
    {| User := "alice"; Service := serviceSSH; Method := "publickey";
       Payload := payload |} in
  let sigBytes := Marshal_Signature (proxySignature downSID "alice") in
  (len (list_byte_of_string algo) < 4294967296)%N
  /\ (len aliceKey < 4294967296)%N
  /\ (len sigBytes < 4294967296)%N
  /\ parsePublicKeyMsg
       (request (x00 :: str algo ++ marshalString aliceKey ++ [x07; x08]))
     = Ok (aliceKey, true, None)
  /\ exists err,
      parsePublicKeyMsg
        (request (x02 :: str algo ++ marshalString aliceKey
                    ++ marshalString sigBytes ++ [x07]))
      = Err err.
Proof.
  intros request sigBytes.
  assert (L1 : (len (list_byte_of_string algo) < 4294967296)%N)
    by reflexivity.
  assert (L2 : (len aliceKey < 4294967296)%N) by reflexivity.
  assert (L3 : (len sigBytes < 4294967296)%N) by reflexivity.
  split; [exact L1|]. split; [exact L2|]. split; [exact L3|].
  destruct (@parsePublicKeyMsg_trailing_bytes library "alice" serviceSSH
              x02 algo aliceKey sigBytes [x07; x08] L1 L2 L3) as (A & _).
  destruct (@parsePublicKeyMsg_trailing_bytes library "alice" serviceSSH
              x02 algo aliceKey sigBytes [x07] L1 L2 L3) as (_ & B).
  split; [exact A|]. apply B; discriminate.
Defined.

End MoreConcrete.
